(** * sql-formatter: the moo-based tokenizer and the placeholder parameters

    A shallow embedding of [src/lexer/tokenizer.ts] and
    [src/formatter/Params.ts], with the properties of the lexical front
    end and of placeholder resolution stated over it.

    - [Params]: the class of [formatter/Params.ts], as state passing over
      the cursor [index].
    - [Regex]: pattern syntax and the backtracking matcher of JavaScript.
    - [Moo]: the lexer library that [tokenizer.ts] compiles its rule table
      with and drains into an array.
    - [Tokenizer]: the rule table of the constructor, its rebuilt flags,
      and [tokenize].
    - [SpecFactory]: the pattern builders of [core/mooRegexFactory], which
      the tokenizer imports; the properties of the tokenizer are stated
      for any builders, and these ones serve as the instance they are
      tried on. *)

From Stdlib Require Import Ascii String DecimalString DecimalNat.
From stdpp Require Import gmap strings list fin_maps.

Local Open Scope string_scope.
#[local] Arguments String.append !s1 s2 : simpl nomatch.

(** ** JavaScript values that a property read can produce here *)

Inductive JsValue : Type :=
| JsUndefined
| JsString (s : string)
| JsNumber (n : nat)
| JsInherited (name : string).
    (* the member of that name that the object inherits from its
       prototypes: a function, or for [__proto__] the prototype itself *)

(** * formatter/Params.ts *)

Module Params.

(** [ParamItems | string[]]: the two shapes of a parameter source. *)
Inductive ParamSource : Type :=
| ParamItems (items : gmap string string)
| ParamArray (values : list string).

(** The class [Params]: the field [params] ([None] is [undefined]) and
    the public cursor [index]. *)
Record t : Type := mk {
  params : option ParamSource;
  index : nat
}.

(** The argument of [get]: [{ key?: string; text: string }]. *)
Record Placeholder : Type := mkPlaceholder {
  key : option string;
  text : string
}.

Definition constructor (params : option ParamSource) : t :=
  {| params := params; index := 0 |}.

(** [if (key)]: [undefined] and the empty string are falsy. *)
Definition truthy (key : option string) : option string :=
  match key with
  | Some k => if String.eqb k "" then None else Some k
  | None => None
  end.

(** ToString of a number used as a property key. *)
Definition to_property_key (i : nat) : string :=
  NilZero.string_of_uint (Nat.to_uint i).

(** A property key is an array index when it is the canonical decimal
    form of a number. *)
Definition array_index (k : string) : option nat :=
  match NilZero.uint_of_string k with
  | Some u =>
      let i := Nat.of_uint u in
      if String.eqb (to_property_key i) k then Some i else None
  | None => None
  end.

(** The names of the string-keyed members of [Object.prototype]
    (ECMAScript 2023, with the legacy accessors of Annex B). *)
Definition object_prototype : list string :=
  ["constructor"; "hasOwnProperty"; "isPrototypeOf"; "propertyIsEnumerable";
   "toLocaleString"; "toString"; "valueOf"; "__proto__";
   "__defineGetter__"; "__defineSetter__"; "__lookupGetter__"; "__lookupSetter__"].

(** The names of the string-keyed members of [Array.prototype]
    (ECMAScript 2023), apart from [length], which an array has of its
    own. *)
Definition array_prototype : list string :=
  ["at"; "concat"; "constructor"; "copyWithin"; "entries"; "every"; "fill";
   "filter"; "find"; "findIndex"; "findLast"; "findLastIndex"; "flat";
   "flatMap"; "forEach"; "includes"; "indexOf"; "join"; "keys"; "lastIndexOf";
   "map"; "pop"; "push"; "reduce"; "reduceRight"; "reverse"; "shift"; "slice";
   "some"; "sort"; "splice"; "toLocaleString"; "toReversed"; "toSorted";
   "toSpliced"; "toString"; "unshift"; "values"; "with"].

(** A property that the object does not have of its own is looked up
    along its prototype chain; it is [undefined] when no prototype has
    it. *)
Definition inherited (chain : list string) (k : string) : JsValue :=
  if existsb (String.eqb k) chain then JsInherited k else JsUndefined.

(** [source[k]] for a string key: the entries of an object literal, then
    [Object.prototype]; the elements and the [length] of an array, then
    [Array.prototype] and [Object.prototype]. *)
Definition get_property (source : ParamSource) (k : string) : JsValue :=
  match source with
  | ParamItems items =>
      match items !! k with
      | Some v => JsString v
      | None => inherited object_prototype k
      end
  | ParamArray values =>
      match array_index k with
      | Some i =>
          match values !! i with
          | Some v => JsString v
          | None => JsUndefined
          end
      | None =>
          if String.eqb k "length" then JsNumber (length values)
          else inherited (array_prototype ++ object_prototype) k
      end
  end.

(** [source[i]] for a number: no prototype has a member named by a
    number. *)
Definition get_element (source : ParamSource) (i : nat) : JsValue :=
  match source with
  | ParamItems items =>
      match items !! to_property_key i with
      | Some v => JsString v
      | None => JsUndefined
      end
  | ParamArray values =>
      match values !! i with
      | Some v => JsString v
      | None => JsUndefined
      end
  end.

(** [Params.get]: the returned value and the object after the call. *)
Definition get (p : t) (ph : Placeholder) : JsValue * t :=
  match params p with
  | None => (JsString (text ph), p)
  | Some source =>
      match truthy (key ph) with
      | Some k => (get_property source k, p)
      | None =>
          (get_element source (index p),
           {| params := params p; index := S (index p) |})
      end
  end.

(** A formatting pass: the calls of [get] in order, on one object. *)
Fixpoint get_all (p : t) (phs : list Placeholder) : list JsValue * t :=
  match phs with
  | [] => ([], p)
  | ph :: rest =>
      let '(v, p1) := get p ph in
      let '(vs, p2) := get_all p1 rest in
      (v :: vs, p2)
  end.


End Params.

(** * Regular expressions, as the JavaScript engine matches them

    The patterns of the rule table are kept as syntax trees; [exec] is the
    backtracking matcher of the language: alternatives and quantifier
    choices are tried in priority order and the first successful path
    decides the match. Characters are [ascii]. *)

Module Regex.

Inductive t : Type :=
| Eps                                          (* (?:)            *)
| CharSet (neg : bool) (items : list (ascii * ascii))
                                               (* [a-z], [^a-z], [^] *)
| Seq (r1 r2 : t)                              (* r1r2            *)
| Alt (r1 r2 : t)                              (* r1|r2           *)
| Star (greedy : bool) (r : t)                 (* r*  and  r*?    *)
| Bol                                          (* ^               *)
| Eol                                          (* $               *)
| WordBoundary                                 (* \b              *)
| Look (positive : bool) (r : t)               (* (?=r) and (?!r) *)
| Group (r : t).                               (* (r), a capture group *)

Definition in_range (c : ascii) (rg : ascii * ascii) : bool :=
  (nat_of_ascii (fst rg) <=? nat_of_ascii c)%nat
  && (nat_of_ascii c <=? nat_of_ascii (snd rg))%nat.

Definition in_set (neg : bool) (items : list (ascii * ascii)) (c : ascii) : bool :=
  xorb neg (existsb (in_range c) items).

(** LineTerminator, within [ascii]: LF and CR. *)
Definition line_terminator (c : ascii) : bool :=
  Ascii.eqb c "010" || Ascii.eqb c "013".

(** The characters of [\w]. *)
Definition word_char (c : ascii) : bool :=
  existsb (in_range c)
    [("a", "z"); ("A", "Z"); ("0", "9"); ("_", "_")]%char.

Definition head (s : string) : option ascii :=
  match s with
  | EmptyString => None
  | String c _ => Some c
  end.

Definition holds (p : ascii -> bool) (c : option ascii) : bool :=
  match c with
  | Some c => p c
  | None => false
  end.

Definition orelse {A} (x y : option A) : option A :=
  match x with
  | Some v => Some v
  | None => y
  end.

(** A matcher: from the position (the character before it and the text
    left) and the rest of the match to the result. *)
Definition matcher : Type :=
  forall A : Type, option ascii -> string ->
                   (option ascii -> string -> option A) -> option A.

(** The loop of a quantifier [m*] or [m*?], by recursion on a bound [n]
    on the iterations: an iteration that consumes nothing is rejected,
    so the length of the text is such a bound. *)
Fixpoint repeat (m : matcher) (greedy : bool) (A : Type)
         (k : option ascii -> string -> option A)
         (n : nat) (prev : option ascii) (s : string) : option A :=
  match n with
  | O => k prev s
  | S n' =>
      let again :=
        m A prev s (fun prev' s' =>
          if (String.length s' <? String.length s)%nat
          then repeat m greedy A k n' prev' s' else None) in
      if greedy then orelse again (k prev s)
      else orelse (k prev s) again
  end.

Section Exec.
(** The [m] flag: [^] and [$] also match at line starts and ends. *)
Variable multiline : bool.

(** [exec r A prev s k]: match [r] at a position whose preceding
    character is [prev] ([None] at the start of the buffer) and whose
    remaining text is [s]; [k] is the rest of the match. *)
Fixpoint exec (r : t) : matcher :=
  match r with
  | Eps => fun A prev s k => k prev s
  | CharSet neg items => fun A prev s k =>
      match s with
      | String c s' => if in_set neg items c then k (Some c) s' else None
      | EmptyString => None
      end
  | Seq r1 r2 => fun A prev s k =>
      exec r1 A prev s (fun prev' s' => exec r2 A prev' s' k)
  | Alt r1 r2 => fun A prev s k =>
      orelse (exec r1 A prev s k) (exec r2 A prev s k)
  | Star greedy r1 => fun A prev s k =>
      repeat (exec r1) greedy A k (S (String.length s)) prev s
  | Bol => fun A prev s k =>
      match prev with
      | None => k prev s
      | Some c => if multiline && line_terminator c then k prev s else None
      end
  | Eol => fun A prev s k =>
      match s with
      | EmptyString => k prev s
      | String c _ => if multiline && line_terminator c then k prev s else None
      end
  | WordBoundary => fun A prev s k =>
      if xorb (holds word_char prev) (holds word_char (head s))
      then k prev s else None
  | Look positive r1 => fun A prev s k =>
      match exec r1 unit prev s (fun _ _ => Some tt) with
      | Some _ => if positive then k prev s else None
      | None => if positive then None else k prev s
      end
  | Group r1 => exec r1
  end.

(** A match of [r] anchored at the position: the last character
    before its end and the text left after it. *)
Definition match_at (r : t) (prev : option ascii) (s : string) :
  option (option ascii * string) :=
  exec r _ prev s (fun prev' s' => Some (prev', s')).

(** [RegExp.prototype.test] without the sticky flag: a match at some
    position of [s]. *)
Fixpoint test_from (r : t) (prev : option ascii) (s : string) : bool :=
  match match_at r prev s with
  | Some _ => true
  | None =>
      match s with
      | EmptyString => false
      | String c s' => test_from r (Some c) s'
      end
  end.

Definition test (r : t) (s : string) : bool := test_from r None s.
End Exec.

(** *** Pattern syntax on top of the core constructors *)

Definition char (c : ascii) : t := CharSet false [(c, c)].
Definition any_char : t := CharSet true [].                   (* [^] *)
Definition never : t := CharSet false [].                (* [] *)
Definition plus (greedy : bool) (r : t) : t := Seq r (Star greedy r).
Definition opt (r : t) : t := Alt r Eps.                 (* r? *)

Fixpoint lit (s : string) : t :=
  match s with
  | EmptyString => Eps
  | String c s' => Seq (char c) (lit s')
  end.

Fixpoint seq (rs : list t) : t :=
  match rs with
  | [] => Eps
  | [r] => r
  | r :: rs' => Seq r (seq rs')
  end.

Fixpoint alt (rs : list t) : t :=
  match rs with
  | [] => never
  | [r] => r
  | r :: rs' => Alt r (alt rs')
  end.

(** Letter case, on the letters of [ascii]. *)
Definition to_lower (c : ascii) : ascii :=
  if in_range c ("A", "Z")%char
  then ascii_of_nat (nat_of_ascii c + 32) else c.
Definition to_upper (c : ascii) : ascii :=
  if in_range c ("a", "z")%char
  then ascii_of_nat (nat_of_ascii c - 32) else c.

Fixpoint lower (s : string) : string :=
  match s with
  | EmptyString => EmptyString
  | String c s' => String (to_lower c) (lower s')
  end.

Fixpoint last (prev : option ascii) (s : string) : option ascii :=
  match s with
  | EmptyString => prev
  | String c s' => last (Some c) s'
  end.

(** The pattern has no match anchored at the position. *)
Definition misses (r : t) (prev : option ascii) (s : string) : bool :=
  match match_at true r prev s with
  | Some _ => false
  | None => true
  end.

(** Whether the pattern has a capture group. *)
Fixpoint has_group (r : t) : bool :=
  match r with
  | Group _ => true
  | Seq r1 r2 | Alt r1 r2 => has_group r1 || has_group r2
  | Star _ r1 | Look _ r1 => has_group r1
  | _ => false
  end.

(** A range of characters of [\w] only. *)
Definition within_word (rg : ascii * ascii) : bool :=
  existsb (fun w : ascii * ascii =>
             (nat_of_ascii (fst w) <=? nat_of_ascii (fst rg))%nat
             && (nat_of_ascii (snd rg) <=? nat_of_ascii (snd w))%nat)
    [("a", "z"); ("A", "Z"); ("0", "9"); ("_", "_")]%char.

(** Where the matches of a pattern end, read off its syntax: whether
    every match ends after a character of [\w], and whether every match
    ends after such a character or where it began. *)
Fixpoint word_end (r : t) : bool * bool :=
  match r with
  | CharSet neg items =>
      let e := negb neg && forallb within_word items in (e, e)
  | Seq r1 r2 =>
      let '(e1, t1) := word_end r1 in
      let '(e2, t2) := word_end r2 in
      let e := e2 || (t2 && e1) in
      (e, e || (t1 && t2))
  | Alt r1 r2 =>
      let '(e1, t1) := word_end r1 in
      let '(e2, t2) := word_end r2 in
      (e1 && e2, t1 && t2)
  | Star _ r1 => (false, snd (word_end r1))
  | Group r1 => word_end r1
  | Eps | Bol | Eol | WordBoundary | Look _ _ => (false, true)
  end.

(** [\s] within [ascii]: TAB, LF, VT, FF, CR, SP and NBSP. *)
Definition space : t :=
  CharSet false [("009", "013"); (" ", " "); ("160", "160")]%char.
Definition digit : t := CharSet false [("0", "9")]%char.

End Regex.

(** A [RegExp] object: its source and its flags. The source is kept as
    the syntax tree that unicode mode, in which the constructor rebuilds
    every pattern, reads it as. *)
Record RegExp : Type := mkRegExp {
  source : Regex.t;
  flags : list ascii
}.

Definition has_flag (f : ascii) (re : RegExp) : bool :=
  existsb (Ascii.eqb f) (flags re).

(** * The lexer library [moo]

    What [moo.compile], [Lexer.reset], [Lexer.next] and the iterator of a
    lexer do for rules given as an object of [{ match, lineBreaks }] with
    [RegExp] matches: no keywords, no states, no error or fallback rule.

    - [compile] takes the rules in the order of the keys, refuses a
      pattern with the flag [i], [g], [y] or [m] (the last three are
      implied), a pattern that matches the empty string, a pattern with a
      capture group and a pattern that matches a line feed in a rule
      without [lineBreaks], and joins the
      sources, one capture group per rule, into one pattern with the flags
      [y] and [m], and [u] when the rules have it. So a rule matches at
      the cursor only, the first rule in order wins, and [^] and [$] are
      the start and the end of a line.
    - [next] returns [undefined] at the end of the buffer; where the
      pattern has no match it makes the token of the default error rule,
      which throws ("invalid syntax").
    - the iterator calls [next] until it returns [undefined]. *)

Module Moo.

(** A rule: its pattern and whether its matches may hold line breaks. *)
Record Rule : Type := mkRule {
  match_ : RegExp;
  lineBreaks : bool
}.

Inductive CompileError : Type :=
| MixedUnicodeFlag        (* If one rule is /u then all must be *)
| FlagNotAllowed (f : ascii)
                          (* RegExp /i flag not allowed; /g, /y, /m implied *)
| MatchesEmptyString      (* RegExp matches empty string *)
| HasCaptureGroups        (* RegExp has capture groups *)
| MissingLineBreaks.      (* Rule should declare lineBreaks *)

(** The token object. [value] is [text]: no rule has a [value] transform. *)
Record Token (K : Type) : Type := mkToken {
  type : K;
  value : string;
  text : string;
  offset : nat;
  tokenLineBreaks : nat;
  line : nat;
  col : nat
}.
Arguments mkToken {K}.
Arguments type {K}.
Arguments value {K}.
Arguments text {K}.
Arguments offset {K}.
Arguments tokenLineBreaks {K}.
Arguments line {K}.
Arguments col {K}.

(** The error thrown by [next] when no rule matches ("invalid syntax"),
    with the position it reports. *)
Record Error : Type := InvalidSyntax {
  errorOffset : nat;
  errorLine : nat;
  errorCol : nat
}.

(** The mutable part of a lexer: the cursor in the buffer. [prev] is the
    character before the cursor, [rest] the buffer from the cursor on. *)
Record State : Type := mkState {
  prev : option ascii;
  rest : string;
  index : nat;
  curLine : nat;
  curCol : nat
}.

Section Lexer.
Context {K : Type}.

(** The compiled lexer: the rules in the order of the keys. They are
    matched as one pattern, the union of their sources in that order,
    with the flags [y] and [m] (and [u]). *)
Record Lexer : Type := mkLexer {
  groups : list (K * Rule);
  unicode : option bool
}.

(** The checks of one rule in [compileRules]. The patterns built in
    the checks carry no flag. *)
Definition check_rule (unicodeFlag : option bool) (rule : Rule) :
  CompileError + option bool :=
  let re := match_ rule in
  let u := has_flag "u" re in
  if match unicodeFlag with
     | None => false
     | Some u0 => negb (Bool.eqb u0 u)
     end
  then inl MixedUnicodeFlag
  else if has_flag "i" re then inl (FlagNotAllowed "i")
  else if has_flag "g" re then inl (FlagNotAllowed "g")
  else if has_flag "y" re then inl (FlagNotAllowed "y")
  else if has_flag "m" re then inl (FlagNotAllowed "m")
  else if Regex.test false (source re) "" then inl MatchesEmptyString
  else if Regex.has_group (source re) then inl HasCaptureGroups
  else if negb (lineBreaks rule)
          && Regex.test false (source re) (String "010" "")
       then inl MissingLineBreaks
  else inr (Some u).

Fixpoint compileRules (unicodeFlag : option bool) (rules : list (K * Rule)) :
  CompileError + option bool :=
  match rules with
  | [] => inr unicodeFlag
  | (_, rule) :: rules' =>
      match check_rule unicodeFlag rule with
      | inl e => inl e
      | inr u => compileRules u rules'
      end
  end.

Definition compile (rules : list (K * Rule)) : CompileError + Lexer :=
  match compileRules None rules with
  | inl e => inl e
  | inr u => inr {| groups := rules; unicode := u |}
  end.

(** [reset(input)]. *)
Definition reset (input : string) : State :=
  {| prev := None; rest := input; index := 0; curLine := 1; curCol := 1 |}.

(** The sticky match of the union at the cursor: the first rule, in
    order, whose pattern matches there. *)
Fixpoint first_match (gs : list (K * Rule)) (prev : option ascii) (s : string) :
  option (K * Rule * (option ascii * string)) :=
  match gs with
  | [] => None
  | (k, rule) :: gs' =>
      match Regex.match_at true (source (match_ rule)) prev s with
      | Some m => Some (k, rule, m)
      | None => first_match gs' prev s
      end
  end.

(** The matched text: what the match has consumed of [s]. *)
Definition consumed (s s' : string) : string :=
  String.substring 0 (String.length s - String.length s') s.

Fixpoint count_newlines (s : string) : nat :=
  match s with
  | EmptyString => 0
  | String c s' =>
      (if Ascii.eqb c "010" then 1 else 0) + count_newlines s'
  end.

(** The number of characters after the last line feed of [s]. *)
Fixpoint after_last_newline (s : string) : nat :=
  match s with
  | EmptyString => 0
  | String c s' =>
      if (0 <? count_newlines s')%nat then after_last_newline s'
      else if Ascii.eqb c "010" then String.length s'
      else S (String.length s')
  end.

(** [_token]: the token of a match and the cursor after it. *)
Definition _token (k : K) (rule : Rule) (txt : string)
           (m : option ascii * string) (st : State) : Token K * State :=
  let lbs := if lineBreaks rule then count_newlines txt else 0 in
  let size := String.length txt in
  ({| type := k; value := txt; text := txt; offset := index st;
      tokenLineBreaks := lbs; line := curLine st; col := curCol st |},
   {| prev := fst m; rest := snd m;
      index := index st + size;
      curLine := curLine st + lbs;
      curCol := if (lbs =? 0)%nat then curCol st + size
                else after_last_newline txt + 1 |}).

Inductive Step : Type :=
| Eof                                   (* [next] returns undefined *)
| Emit (tok : Token K) (st' : State)
| Throw (e : Error).

(** [next()]. *)
Definition next (L : Lexer) (st : State) : Step :=
  match rest st with
  | EmptyString => Eof
  | String _ _ =>
      match first_match (groups L) (prev st) (rest st) with
      | Some (k, rule, m) =>
          let '(tok, st') := _token k rule (consumed (rest st) (snd m)) m st in
          Emit tok st'
      | None =>
          Throw {| errorOffset := index st; errorLine := curLine st;
                   errorCol := curCol st |}
      end
  end.

(** The result of draining the iterator of a lexer into an array. A
    match of no character leaves the cursor in place, and the loop
    then never ends. *)
Inductive Outcome : Type :=
| Tokens (toks : list (Token K))
| Throws (e : Error)
| Diverges.

Definition push (tok : Token K) (o : Outcome) : Outcome :=
  match o with
  | Tokens toks => Tokens (tok :: toks)
  | other => other
  end.

(** [Array.from(lexer)], by recursion on a bound on the calls of
    [next]: every call that emits a token of one character or more
    shortens the rest of the buffer. *)
Fixpoint drain (fuel : nat) (L : Lexer) (st : State) : Outcome :=
  match fuel with
  | O => Diverges
  | S fuel' =>
      match next L st with
      | Eof => Tokens []
      | Throw e => Throws e
      | Emit tok st' =>
          if String.eqb (text tok) "" then Diverges
          else push tok (drain fuel' L st')
      end
  end.

Definition from (L : Lexer) (st : State) : Outcome :=
  drain (S (String.length (rest st))) L st.

(** [emits L st toks st']: from [st], successive calls of [next] emit
    [toks], each of one character or more, and leave the lexer at
    [st']. *)
Inductive emits (L : Lexer) : State -> list (Token K) -> State -> Prop :=
| emits_nil st : emits L st [] st
| emits_cons st tok st1 toks st2 :
    next L st = Emit tok st1 ->
    text tok <> EmptyString ->
    emits L st1 toks st2 ->
    emits L st (tok :: toks) st2.

(** The texts of the tokens, joined. *)
Definition texts (toks : list (Token K)) : string :=
  String.concat EmptyString (map text toks).

(** The types and texts of the tokens of a completed run. *)
Definition types_and_texts (o : Outcome) : option (list (K * string)) :=
  match o with
  | Tokens toks => Some (map (fun tok => (type tok, text tok)) toks)
  | _ => None
  end.
End Lexer.
Arguments Lexer : clear implicits.
Arguments Step : clear implicits.
Arguments Outcome : clear implicits.

End Moo.

(** * lexer/tokenizer.ts *)

(** The keys of the rule table: the members of [TokenType] that the table
    uses and its five literal keys, all taken to be different strings. *)
Inductive TokenType : Type :=
| WS | NL | BLOCK_COMMENT | LINE_COMMENT
| COMMA | OPEN_PAREN | CLOSE_PAREN | OPEN_BRACKET | CLOSE_BRACKET
| OPERATOR | NUMBER | CASE_START | CASE_END
| RESERVED_COMMAND | RESERVED_BINARY_COMMAND | RESERVED_DEPENDENT_CLAUSE
| RESERVED_LOGICAL_OPERATOR | RESERVED_KEYWORD
| INDEXED_PLACEHOLDER | NAMED_PLACEHOLDER | STRING_PLACEHOLDER
| STRING | WORD.

(** [StringPatternType]: the name of a quoting style. *)
Definition StringPatternType : Type := string.

(** [{ prefix?: string; any?: string; suffix?: string }], with the keys in
    this order. *)
Record SpecialWordChars : Type := mkSpecialWordChars {
  prefix : option string;
  any : option string;
  suffix : option string
}.

Record TokenizerOptions : Type := mkTokenizerOptions {
  reservedKeywords : list string;
  reservedCommands : list string;
  reservedLogicalOperators : list string;
  reservedDependentClauses : list string;
  reservedBinaryCommands : list string;
  stringTypes : list StringPatternType;
  blockStart : list string;
  blockEnd : list string;
  indexedPlaceholderTypes : option (list string);
  namedPlaceholderTypes : list string;
  lineCommentTypes : list string;
  specialWordChars : option SpecialWordChars;
  operators : option (list string)
}.

(** The pattern builders that the tokenizer imports from
    [core/mooRegexFactory]. A builder may return no pattern, and the rule
    is then left out of the table. The second argument of
    [placeholderRegex] is a pattern source. *)
Class MooRegexFactory : Type := {
  lineCommentRegex : list string -> option RegExp;
  operatorRegex : string -> list string -> option RegExp;
  placeholderRegex : list string -> Regex.t -> option RegExp;
  reservedWordRegex : list string -> string -> option RegExp;
  stringRegex : list StringPatternType -> RegExp;
  wordRegex : option SpecialWordChars -> option RegExp
}.

Module Tokenizer.
Import Regex.

(** A rule as the constructor first writes it: [match] may be undefined. *)
Record RuleOption : Type := mkRuleOption {
  optMatch : option RegExp;
  optLineBreaks : bool
}.

Definition rule (r : Regex.t) (fl : string) : RuleOption :=
  {| optMatch := Some (mkRegExp r (list_ascii_of_string fl));
     optLineBreaks := false |}.
Definition rule_lb (r : Regex.t) (fl : string) : RuleOption :=
  {| optMatch := Some (mkRegExp r (list_ascii_of_string fl));
     optLineBreaks := true |}.
Definition built (m : option RegExp) : RuleOption :=
  {| optMatch := m; optLineBreaks := false |}.

(** The end of a block comment: [(?:\*\/|$)]. *)
Definition block_comment_end : Regex.t := Alt (lit "*/") Eol.

(** No line terminator in the text. *)
Fixpoint one_line (s : string) : bool :=
  match s with
  | EmptyString => true
  | String c s' => negb (line_terminator c) && one_line s'
  end.

(** No closer of a block comment in the text. *)
Fixpoint closer_free (s : string) : bool :=
  match s with
  | EmptyString => true
  | String c s' =>
      negb (Ascii.eqb c "*" && holds (Ascii.eqb "/") (head s')) && closer_free s'
  end.

(** [/^(?:\/\*[^]*?(?:\*\/|$))/u] *)
Definition block_comment_pattern : Regex.t :=
  seq [Bol; lit "/*"; Star false any_char; block_comment_end].

(** [[0-9]+(?:\.[0-9]+)?] *)
Definition decimal_pattern : Regex.t :=
  seq [plus true digit; opt (seq [char "."; plus true digit])].

(** The number pattern, anchored by [^] and closed by [\b], of three
    alternatives: an optional [-] and white space, a decimal, and an
    optional exponent [[eE][-+]?] with a decimal; [0x[0-9a-fA-F]+];
    [0b[01]+]. *)
Definition number_pattern : Regex.t :=
  seq [Bol;
       alt [seq [opt (seq [char "-"; Star true space]);
                 decimal_pattern;
                 opt (seq [CharSet false [("e", "e"); ("E", "E")]%char;
                           opt (CharSet false [("-", "-"); ("+", "+")]%char);
                           decimal_pattern])];
            seq [lit "0x";
                 plus true (CharSet false [("0", "9"); ("a", "f"); ("A", "F")]%char)];
            seq [lit "0b"; plus true (CharSet false [("0", "1")]%char)]];
       WordBoundary].

(** [[Cc]], one letter in either case. *)
Definition either (lower upper : ascii) : Regex.t :=
  CharSet false [(upper, upper); (lower, lower)].

(** [/[Cc][Aa][Ss][Ee]/u] and [/[Ee][Nn][Dd]/u] *)
Definition case_start_pattern : Regex.t :=
  seq [either "c" "C"; either "a" "A"; either "s" "S"; either "e" "E"]%char.
Definition case_end_pattern : Regex.t :=
  seq [either "e" "E"; either "n" "N"; either "d" "D"]%char.

Definition join (ss : list string) : string := String.concat "" ss.

(** [Object.values(cfg.specialWordChars ?? {}).join('')] *)
Definition specialWordCharsAll (cfg : TokenizerOptions) : string :=
  match specialWordChars cfg with
  | None => ""
  | Some w => join (map (default "") [prefix w; any w; suffix w])
  end.

Section WithFactory.
Context {F : MooRegexFactory}.

(** The match of the operator rule. *)
Definition operator_match (cfg : TokenizerOptions) : option RegExp :=
  operatorRegex "+-/*%&|^><=.;{}`:$"
    (["<>"; "<="; ">="; "!="] ++ default [] (operators cfg))%list.

(** The match of the line-comment rule. *)
Definition line_comment_match (cfg : TokenizerOptions) : option RegExp :=
  lineCommentRegex (lineCommentTypes cfg).

(** The object literal assigned to [LEXER_OPTIONS], in key order. *)
Definition rule_options (cfg : TokenizerOptions) : list (TokenType * RuleOption) :=
  let special := specialWordCharsAll cfg in
  [ (WS, rule (plus true (CharSet false [(" ", " "); ("009", "009")]%char)) "");
    (NL, rule_lb (char "010") "");
    (BLOCK_COMMENT, rule_lb block_comment_pattern "u");
    (LINE_COMMENT, built (line_comment_match cfg));
    (COMMA, rule (char ",") "");
    (OPEN_PAREN, rule (char "(") "");
    (CLOSE_PAREN, rule (char ")") "");
    (OPEN_BRACKET, rule (char "[") "");
    (CLOSE_BRACKET, rule (char "]") "");
    (OPERATOR, built (operator_match cfg));
    (NUMBER, rule number_pattern "u");
    (CASE_START, rule case_start_pattern "u");
    (CASE_END, rule case_end_pattern "u");
    (RESERVED_COMMAND,
      built (reservedWordRegex (reservedCommands cfg) special));
    (RESERVED_BINARY_COMMAND,
      built (reservedWordRegex (reservedBinaryCommands cfg) special));
    (RESERVED_DEPENDENT_CLAUSE,
      built (reservedWordRegex (reservedDependentClauses cfg) special));
    (RESERVED_LOGICAL_OPERATOR,
      built (reservedWordRegex (reservedLogicalOperators cfg) special));
    (RESERVED_KEYWORD,
      built (reservedWordRegex (reservedKeywords cfg) special));
    (INDEXED_PLACEHOLDER,
      built (placeholderRegex (default [] (indexedPlaceholderTypes cfg))
               (Star true digit)));
    (NAMED_PLACEHOLDER,
      built (placeholderRegex (namedPlaceholderTypes cfg)
               (plus true (CharSet false
                  [("a", "z"); ("A", "Z"); ("0", "9"); (".", "."); ("_", "_");
                   ("$", "$")]%char))));
    (STRING_PLACEHOLDER,
      built (placeholderRegex (namedPlaceholderTypes cfg)
               (source (stringRegex (stringTypes cfg)))));
    (STRING, built (Some (stringRegex (stringTypes cfg))));
    (WORD, built (wordRegex (specialWordChars cfg))) ].

(** The flags of the rebuilt pattern: those of the written one without
    [i], [u], [m], [g] and [y], then [u]. *)
Definition normalized_flags (fl : list ascii) : list ascii :=
  (List.filter
     (fun f => negb (existsb (Ascii.eqb f) (list_ascii_of_string "iumgy"))) fl
   ++ ["u"%char])%list.

(** The [reduce] over the entries: a rule with a match is kept, with
    its pattern rebuilt; a rule without one is dropped. *)
Definition normalize (opts : list (TokenType * RuleOption)) :
  list (TokenType * Moo.Rule) :=
  fold_left
    (fun (rules : list (TokenType * Moo.Rule)) '(name, opt) =>
       match optMatch opt with
       | Some re =>
           (rules ++ [(name,
                       {| Moo.match_ := mkRegExp (source re) (normalized_flags (flags re));
                          Moo.lineBreaks := optLineBreaks opt |})])%list
       | None => rules
       end)
    opts [].

(** What one entry contributes to the rebuilt table. *)
Definition kept (e : TokenType * RuleOption) : list (TokenType * Moo.Rule) :=
  match optMatch (snd e) with
  | Some re =>
      [(fst e,
        {| Moo.match_ := mkRegExp (source re) (normalized_flags (flags re));
           Moo.lineBreaks := optLineBreaks (snd e) |})]
  | None => []
  end.

(** A built pattern, when there is one, has no match anchored at the
    position. *)
Definition unclaimed (m : option RegExp) (prev : option ascii) (s : string) : bool :=
  match m with
  | Some re => misses (source re) prev s
  | None => true
  end.

Record t : Type := mk {
  LEXER_OPTIONS : list (TokenType * Moo.Rule);
  LEXER : Moo.Lexer TokenType
}.

(** The errors of the constructor: the [SyntaxError] of [new RegExp] in
    the rebuilding of a pattern, and the errors of [moo.compile]. *)
Inductive Error : Type :=
| InvalidRegExp
| CompileFailed (e : Moo.CompileError).

(** [new RegExp(match, flags + 'u')] throws when the flags kept from the
    written pattern hold [v], which excludes [u]. *)
Definition rebuild_fails (e : TokenType * RuleOption) : bool :=
  match optMatch (snd e) with
  | Some re => existsb (Ascii.eqb "v") (flags re)
  | None => false
  end.

(** [new Tokenizer(cfg)]: the object, or the error that the rebuilding
    of the table or [moo.compile] throws. *)
Definition constructor (cfg : TokenizerOptions) : Error + t :=
  if existsb rebuild_fails (rule_options cfg) then inl InvalidRegExp
  else
    let options := normalize (rule_options cfg) in
    match Moo.compile options with
    | inl e => inl (CompileFailed e)
    | inr lexer => inr {| LEXER_OPTIONS := options; LEXER := lexer |}
    end.

(** [tokenize(input)]: reset the lexer, then drain it into an array. *)
Definition tokenize (tk : t) (input : string) : Moo.Outcome TokenType :=
  Moo.from (LEXER tk) (Moo.reset input).
End WithFactory.

End Tokenizer.

(** * core/mooRegexFactory, as the specification describes its patterns *)

Module SpecFactory.
Import Regex.

Definition u_flag : list ascii := ["u"%char].

Definition one_of (cs : string) : list (ascii * ascii) :=
  map (fun c => (c, c)) (list_ascii_of_string cs).

Definition word_ranges : list (ascii * ascii) :=
  [("a", "z"); ("A", "Z"); ("0", "9"); ("_", "_")]%char.

(** A word in any letter case. *)
Fixpoint lit_ci (s : string) : Regex.t :=
  match s with
  | EmptyString => Eps
  | String c s' =>
      Seq (CharSet false [(to_upper c, to_upper c); (to_lower c, to_lower c)])
          (lit_ci s')
  end.

(** Modelled from the spec: [lineCommentRegex] of core/mooRegexFactory,
    which is not part of the sources at hand. "One of the configured
    prefixes up to (not including) the next newline or end-of-input." *)
Definition lineCommentRegex (types : list string) : option RegExp :=
  Some (mkRegExp
          (seq [alt (map lit types);
                Star true (CharSet true [("010", "010")]%char)])
          u_flag).

(** Modelled from the spec: [operatorRegex] of core/mooRegexFactory.
    "Any of a fixed base set of single characters plus configured
    multi-character operators; multi-character operators must be tried
    before the single-character fallback." *)
Definition operatorRegex (monadOperators : string) (polyadOperators : list string) :
  option RegExp :=
  Some (mkRegExp
          (Alt (alt (map lit polyadOperators))
               (CharSet false (one_of monadOperators)))
          u_flag).

(** Modelled from the spec: [placeholderRegex] of core/mooRegexFactory.
    "One of the configured prefixes followed by" the given pattern. *)
Definition placeholderRegex (types : list string) (pattern : Regex.t) :
  option RegExp :=
  Some (mkRegExp (seq [alt (map lit types); pattern]) u_flag).

(** Modelled from the spec: [reservedWordRegex] of core/mooRegexFactory.
    "Matched against its configured word list, case-insensitively, as
    whole words (not as substrings of longer identifiers) and honoring
    any configured special characters that may legally appear adjacent
    to the word." *)
Definition reservedWordRegex (reservedKeywords : list string)
           (specialWordChars : string) : option RegExp :=
  Some (mkRegExp
          (seq [alt (map lit_ci reservedKeywords);
                Look false (CharSet false (word_ranges ++ one_of specialWordChars)%list)])
          u_flag).

(** The text between two delimiters [q], where a backslash escapes the
    character after it. *)
Definition quoted (q : ascii) : Regex.t :=
  seq [char q;
       Star true (Alt (CharSet true [(q, q); ("\", "\")]%char)
                      (Seq (char "\") any_char));
       char q].

Definition double_quote : ascii := "034"%char.

Definition string_pattern (name : StringPatternType) : Regex.t :=
  if String.eqb name (String double_quote (String double_quote EmptyString))
  then quoted double_quote
  else if String.eqb name "''" then quoted "'"
  else if String.eqb name "``" then quoted "`"
  else if String.eqb name "[]"
  then seq [char "["; Star true (CharSet true [("]", "]")]%char); char "]"]
  else if String.eqb name "N''" then Seq (char "N") (quoted "'")
  else never.

(** Modelled from the spec: [stringRegex] of core/mooRegexFactory.
    "Matched per the configured quoting styles (quotes, back quotes,
    square brackets, N-prefixed quotes), supporting escaped delimiters
    inside the string." *)
Definition stringRegex (stringTypes : list StringPatternType) : RegExp :=
  mkRegExp (alt (map string_pattern stringTypes)) u_flag.

(** Modelled from the spec: [wordRegex] of core/mooRegexFactory. "A run
    of word characters plus any configured special characters." *)
Definition wordRegex (specialChars : option SpecialWordChars) : option RegExp :=
  let special :=
    match specialChars with
    | None => EmptyString
    | Some w => String.concat EmptyString (map (default EmptyString) [prefix w; any w; suffix w])
    end in
  Some (mkRegExp
          (plus true (CharSet false (word_ranges ++ one_of special)%list))
          u_flag).

Definition factory : MooRegexFactory :=
  Build_MooRegexFactory lineCommentRegex operatorRegex placeholderRegex
    reservedWordRegex stringRegex wordRegex.

(** A small configuration in the style of the standard SQL dialect. *)
Definition cfg : TokenizerOptions :=
  {| reservedKeywords := ["AS"; "IN"; "ON"; "THEN"];
     reservedCommands := ["SELECT"; "FROM"; "WHERE"];
     reservedLogicalOperators := ["AND"; "OR"];
     reservedDependentClauses := ["WHEN"; "ELSE"];
     reservedBinaryCommands := ["UNION"; "JOIN"];
     stringTypes := [String double_quote (String double_quote EmptyString); "''"];
     blockStart := ["("];
     blockEnd := [")"];
     indexedPlaceholderTypes := Some ["?"];
     namedPlaceholderTypes := ["@"];
     lineCommentTypes := ["--"];
     specialWordChars := None;
     operators := None |}.

(** The tokenizer of that configuration. *)
Definition tokenizer : Tokenizer.t :=
  let options := @Tokenizer.normalize (@Tokenizer.rule_options factory cfg) in
  {| Tokenizer.LEXER_OPTIONS := options;
     Tokenizer.LEXER := {| Moo.groups := options; Moo.unicode := Some true |} |}.
End SpecFactory.


(** * Notions used to state further properties *)

Module Pass.
Import Params.

(** A call without a key: the key is absent or empty. *)
Definition keyless (ph : Placeholder) : bool :=
  match truthy (key ph) with
  | None => true
  | Some _ => false
  end.

(** [values[i]]. *)
Definition element (values : list string) (i : nat) : JsValue :=
  match values !! i with
  | Some v => JsString v
  | None => JsUndefined
  end.

(** The values that a pass returns for its keyless placeholders. *)
Fixpoint keyless_values (vs : list JsValue) (phs : list Placeholder) : list JsValue :=
  match vs, phs with
  | v :: vs', ph :: phs' =>
      if keyless ph then v :: keyless_values vs' phs' else keyless_values vs' phs'
  | _, _ => []
  end.

End Pass.

Module Table.

(** The keys of the object literal of the constructor, in the order in
    which they are written. *)
Definition written_keys : list TokenType :=
  [WS; NL; BLOCK_COMMENT; LINE_COMMENT; COMMA; OPEN_PAREN; CLOSE_PAREN;
   OPEN_BRACKET; CLOSE_BRACKET; OPERATOR; NUMBER; CASE_START; CASE_END;
   RESERVED_COMMAND; RESERVED_BINARY_COMMAND; RESERVED_DEPENDENT_CLAUSE;
   RESERVED_LOGICAL_OPERATOR; RESERVED_KEYWORD; INDEXED_PLACEHOLDER;
   NAMED_PLACEHOLDER; STRING_PLACEHOLDER; STRING; WORD].

(** The keys whose match is written in the constructor itself, or built by
    a builder that always returns a pattern. *)
Definition fixed_keys : list TokenType :=
  [WS; NL; BLOCK_COMMENT; COMMA; OPEN_PAREN; CLOSE_PAREN; OPEN_BRACKET;
   CLOSE_BRACKET; NUMBER; CASE_START; CASE_END; STRING].

(** The flags that [moo.compile] accepts on the patterns of a table that
    has them all in unicode mode. *)
Definition accepted_flags (re : RegExp) : bool :=
  has_flag "u" re
  && negb (has_flag "i" re || has_flag "g" re || has_flag "y" re || has_flag "m" re).

(** The pattern of a key, for the rules whose pattern is written in the
    constructor. *)
Definition written_source (k : TokenType) : option Regex.t :=
  match k with
  | WS => Some (Regex.plus true (Regex.CharSet false [(" ", " "); ("009", "009")]%char))
  | NL => Some (Regex.char "010")
  | BLOCK_COMMENT => Some Tokenizer.block_comment_pattern
  | COMMA => Some (Regex.char ",")
  | OPEN_PAREN => Some (Regex.char "(")
  | CLOSE_PAREN => Some (Regex.char ")")
  | OPEN_BRACKET => Some (Regex.char "[")
  | CLOSE_BRACKET => Some (Regex.char "]")
  | NUMBER => Some Tokenizer.number_pattern
  | CASE_START => Some Tokenizer.case_start_pattern
  | CASE_END => Some Tokenizer.case_end_pattern
  | _ => None
  end.

(** The rules written with [lineBreaks: true]. *)
Definition declares_line_breaks (k : TokenType) : bool :=
  match k with
  | NL | BLOCK_COMMENT => true
  | _ => false
  end.

Definition is_NL (k : TokenType) : bool :=
  match k with
  | NL => true
  | _ => false
  end.

(** The offsets, lines and columns of the tokens are those counted from
    the texts and from the tokens of type [NL] alone: a token stands at
    offset [i], line [l] and column [c]; a token of type [NL] starts a
    line, any other token moves the column by its length. *)
Fixpoint positioned (i l c : nat) (toks : list (Moo.Token TokenType)) : bool :=
  match toks with
  | [] => true
  | tok :: toks' =>
      let n := String.length (Moo.text tok) in
      (Moo.offset tok =? i)%nat && (Moo.line tok =? l)%nat && (Moo.col tok =? c)%nat
      && (if is_NL (Moo.type tok) then positioned (i + n) (l + 1) 1 toks'
          else positioned (i + n) l (c + n) toks')
  end.

(** The start of the buffer or of a line. *)
Definition line_start (prev : option ascii) : bool :=
  match prev with
  | None => true
  | Some c => Regex.line_terminator c
  end.

(** A space or a tab. *)
Definition blank (c : ascii) : bool :=
  Ascii.eqb c " " || Ascii.eqb c "009".

Fixpoint all_blank (s : string) : bool :=
  match s with
  | EmptyString => true
  | String c s' => blank c && all_blank s'
  end.

(** The five rules of one character. *)
Definition punctuation : list (ascii * TokenType) :=
  [(",", COMMA); ("(", OPEN_PAREN); (")", CLOSE_PAREN);
   ("[", OPEN_BRACKET); ("]", CLOSE_BRACKET)]%char.

(** The match that the object literal of the constructor gives to a key:
    a written pattern, or what a builder returns for the configuration. *)
Definition match_of {F : MooRegexFactory} (cfg : TokenizerOptions) (k : TokenType) :
  option RegExp :=
  let special := Tokenizer.specialWordCharsAll cfg in
  let plain r := Some (mkRegExp r []) in
  let unicode r := Some (mkRegExp r ["u"%char]) in
  match k with
  | WS => plain (Regex.plus true (Regex.CharSet false [(" ", " "); ("009", "009")]%char))
  | NL => plain (Regex.char "010")
  | BLOCK_COMMENT => unicode Tokenizer.block_comment_pattern
  | LINE_COMMENT => lineCommentRegex (lineCommentTypes cfg)
  | COMMA => plain (Regex.char ",")
  | OPEN_PAREN => plain (Regex.char "(")
  | CLOSE_PAREN => plain (Regex.char ")")
  | OPEN_BRACKET => plain (Regex.char "[")
  | CLOSE_BRACKET => plain (Regex.char "]")
  | OPERATOR =>
      operatorRegex "+-/*%&|^><=.;{}`:$"
        (["<>"; "<="; ">="; "!="] ++ default [] (operators cfg))%list
  | NUMBER => unicode Tokenizer.number_pattern
  | CASE_START => unicode Tokenizer.case_start_pattern
  | CASE_END => unicode Tokenizer.case_end_pattern
  | RESERVED_COMMAND => reservedWordRegex (reservedCommands cfg) special
  | RESERVED_BINARY_COMMAND => reservedWordRegex (reservedBinaryCommands cfg) special
  | RESERVED_DEPENDENT_CLAUSE => reservedWordRegex (reservedDependentClauses cfg) special
  | RESERVED_LOGICAL_OPERATOR => reservedWordRegex (reservedLogicalOperators cfg) special
  | RESERVED_KEYWORD => reservedWordRegex (reservedKeywords cfg) special
  | INDEXED_PLACEHOLDER =>
      placeholderRegex (default [] (indexedPlaceholderTypes cfg))
        (Regex.Star true Regex.digit)
  | NAMED_PLACEHOLDER =>
      placeholderRegex (namedPlaceholderTypes cfg)
        (Regex.plus true
           (Regex.CharSet false
              [("a", "z"); ("A", "Z"); ("0", "9"); (".", "."); ("_", "_");
               ("$", "$")]%char))
  | STRING_PLACEHOLDER =>
      placeholderRegex (namedPlaceholderTypes cfg)
        (source (stringRegex (stringTypes cfg)))
  | STRING => Some (stringRegex (stringTypes cfg))
  | WORD => wordRegex (specialWordChars cfg)
  end.

(** The rule that the table holds for a key whose match is [re]: the
    pattern rebuilt, and the [lineBreaks] written for the key. *)
Definition rebuilt (k : TokenType) (re : RegExp) : Moo.Rule :=
  {| Moo.match_ := mkRegExp (source re) (Tokenizer.normalized_flags (flags re));
     Moo.lineBreaks := declares_line_breaks k |}.

(** The single-character operators and the multi-character operators that
    the constructor passes to [operatorRegex]. *)
Definition monad_operators : string := "+-/*%&|^><=.;{}`:$".
Definition polyad_operators (cfg : TokenizerOptions) : list string :=
  (["<>"; "<="; ">="; "!="] ++ default [] (operators cfg))%list.

(** [starts_with op s]: what follows [op] in [s], when [s] starts with
    [op]. *)
Fixpoint starts_with (op s : string) : option string :=
  match op, s with
  | EmptyString, _ => Some s
  | String a op', String b s' =>
      if Ascii.eqb b a then starts_with op' s' else None
  | String _ _, EmptyString => None
  end.

(** The first operator of the list that the text starts with, and what
    follows it. *)
Fixpoint first_listed (ops : list string) (s : string) : option (string * string) :=
  match ops with
  | [] => None
  | op :: ops' =>
      match starts_with op s with
      | Some tail => Some (op, tail)
      | None => first_listed ops' s
      end
  end.

(** The nine rules written before the operator rule: white space, line
    feed, the two comments and the five punctuation characters. *)
Definition before_operator {F : MooRegexFactory} (cfg : TokenizerOptions) :
  list (TokenType * Tokenizer.RuleOption) :=
  firstn 9 (Tokenizer.rule_options cfg).

(** The errors of [moo.compile] about the flags of a pattern. *)
Definition flag_error (e : Moo.CompileError) : bool :=
  match e with
  | Moo.MixedUnicodeFlag | Moo.FlagNotAllowed _ => true
  | _ => false
  end.

(** A configuration whose line-comment prefix is the empty string. *)
Definition cfg_empty_prefix : TokenizerOptions :=
  {| reservedKeywords := []; reservedCommands := ["SELECT"];
     reservedLogicalOperators := []; reservedDependentClauses := [];
     reservedBinaryCommands := [];
     stringTypes := ["''"]; blockStart := ["("]; blockEnd := [")"];
     indexedPlaceholderTypes := None; namedPlaceholderTypes := [];
     lineCommentTypes := [EmptyString];
     specialWordChars := None; operators := None |}.

End Table.

(** * Properties of [Params] *)

Example array_index_1 : Params.array_index "1" = Some 1.
Proof. reflexivity. Qed.
Example array_index_01 : Params.array_index "01" = None.
Proof. reflexivity. Qed.
Example array_index_empty : Params.array_index "" = None.
Proof. reflexivity. Qed.
Example to_property_key_10 : Params.to_property_key 10 = "10".
Proof. reflexivity. Qed.

Section ParamsFacts.
Import Params.





End ParamsFacts.

(** C3, as the code has it: on an array source, a call of [get] without a
    key (absent or empty) returns the element at the cursor, [undefined]
    past the end, and moves the cursor by one; a call with a key that is
    not empty leaves the cursor where it is and returns the property of
    the array that the key names: the element for the decimal form of an
    index, the length for "length", the inherited member for a name of
    [Array.prototype] or [Object.prototype], and [undefined] for any other
    name. *)
Theorem C3_array_source_get (values : list string) (i : nat) (ph : Params.Placeholder) :
  let p := Params.mk (Some (Params.ParamArray values)) i in
  Params.get p ph =
  match Params.truthy (Params.key ph) with
  | None =>
      (match values !! i with Some v => JsString v | None => JsUndefined end,
       Params.mk (Some (Params.ParamArray values)) (S i))
  | Some k =>
      (match Params.array_index k with
       | Some j =>
           match values !! j with Some v => JsString v | None => JsUndefined end
       | None =>
           if String.eqb k "length" then JsNumber (length values)
           else if existsb (String.eqb k)
                     (Params.array_prototype ++ Params.object_prototype)
                then JsInherited k
                else JsUndefined
       end, p)
  end.
Proof.
  intros p. unfold Params.get. simpl.
  by destruct (Params.truthy (Params.key ph)).
Qed.

(** C3, refuted as stated: on the array ["a"; "b"] with the cursor at 0, a
    call that carries the key "1" returns "b", not the element "a" at the
    cursor, and the cursor stays at 0. *)
Lemma C3_keyed_get_on_array_ignores_cursor :
  let p := Params.constructor (Some (Params.ParamArray ["a"; "b"])) in
  let ph := Params.mkPlaceholder (Some "1") "?1" in
  Params.get p ph = (JsString "b", p)
  /\ Params.get p ph <>
     (JsString "a", Params.mk (Some (Params.ParamArray ["a"; "b"])) 1).
Proof. split; [reflexivity | discriminate]. Qed.

(** C4: on the array ["a"; "b"], two calls of [get] without a key return
    "a" then "b", and a third returns [undefined]; the three calls go
    through. *)
Theorem C4_positional_sequence (ph1 ph2 ph3 : Params.Placeholder) :
  Params.truthy (Params.key ph1) = None ->
  Params.truthy (Params.key ph2) = None ->
  Params.truthy (Params.key ph3) = None ->
  Params.get_all (Params.constructor (Some (Params.ParamArray ["a"; "b"])))
                 [ph1; ph2; ph3]
  = ([JsString "a"; JsString "b"; JsUndefined],
     Params.mk (Some (Params.ParamArray ["a"; "b"])) 3).
Proof.
  intros H1 H2 H3. unfold Params.get_all, Params.get, Params.constructor.
  simpl. rewrite H1. simpl. rewrite H2. simpl. by rewrite H3.
Qed.

Lemma C4_positional_sequence_witness :
  Params.get_all (Params.constructor (Some (Params.ParamArray ["a"; "b"])))
                 [Params.mkPlaceholder None "?";
                  Params.mkPlaceholder None "?";
                  Params.mkPlaceholder (Some "") "?"]
  = ([JsString "a"; JsString "b"; JsUndefined],
     Params.mk (Some (Params.ParamArray ["a"; "b"])) 3).
Proof. apply C4_positional_sequence; reflexivity. Defined.

(** C5, as the code has it: on a mapping source, a call of [get] with a
    key that is not the empty string returns the value mapped to the key
    when the mapping has it; when it has not, the call returns the member
    of that name inherited from [Object.prototype] if there is one, and
    [undefined] otherwise. No case raises an error, and the object is
    left as it was. *)
Theorem C5_named_lookup (items : gmap string string) (i : nat) (k txt : string) :
  k <> "" ->
  let p := Params.mk (Some (Params.ParamItems items)) i in
  Params.get p (Params.mkPlaceholder (Some k) txt) =
  (match items !! k with
   | Some v => JsString v
   | None =>
       if existsb (String.eqb k) Params.object_prototype
       then JsInherited k else JsUndefined
   end, p).
Proof.
  intros Hk p. unfold Params.get, Params.truthy. simpl.
  destruct (String.eqb_spec k ""); [done|]. simpl.
  by destruct (items !! k).
Qed.

Lemma C5_named_lookup_witness :
  let p := Params.constructor (Some (Params.ParamItems {[ "foo" := "x" ]})) in
  Params.get p (Params.mkPlaceholder (Some "foo") ":foo") = (JsString "x", p)
  /\ Params.get p (Params.mkPlaceholder (Some "bar") ":bar") = (JsUndefined, p).
Proof.
  intros p. split.
  - etrans; [apply (C5_named_lookup {[ "foo" := "x" ]} 0 "foo" ":foo"); discriminate|].
    vm_compute. reflexivity.
  - etrans; [apply (C5_named_lookup {[ "foo" := "x" ]} 0 "bar" ":bar"); discriminate|].
    vm_compute. reflexivity.
Defined.

(** C5, refuted as stated: on the mapping {foo: "x"} the key "toString" is
    absent, and the call returns the inherited member, not [undefined];
    and on a mapping that has the empty key, the call carrying that key
    is treated as one without a key: it reads the property named by the
    cursor and moves the cursor. *)
Lemma C5_absent_key_may_be_inherited :
  (let items : gmap string string := {[ "foo" := "x" ]} in
   let p := Params.constructor (Some (Params.ParamItems items)) in
   items !! "toString" = None
   /\ Params.get p (Params.mkPlaceholder (Some "toString") ":toString") =
      (JsInherited "toString", p)
   /\ fst (Params.get p (Params.mkPlaceholder (Some "toString") ":toString"))
      <> JsUndefined)
  /\ (let items : gmap string string := {[ "" := "x" ]} in
      let p := Params.constructor (Some (Params.ParamItems items)) in
      items !! "" = Some "x"
      /\ Params.get p (Params.mkPlaceholder (Some "") "?") =
         (JsUndefined, Params.mk (Some (Params.ParamItems items)) 1)).
Proof.
  split; [split; [|split]|split].
  - vm_compute. reflexivity.
  - vm_compute. reflexivity.
  - vm_compute. discriminate.
  - vm_compute. reflexivity.
  - vm_compute. reflexivity.
Qed.

(** C6: without a parameter source, every call of [get] returns the text
    of the placeholder, with or without a key, and changes nothing. *)
Theorem C6_no_source_returns_text (i : nat) (ph : Params.Placeholder) :
  Params.get (Params.mk None i) ph = (JsString (Params.text ph), Params.mk None i).
Proof. reflexivity. Qed.


(** * Properties of the matcher *)

Section RegexFacts.
Import Regex.

Lemma orelse_Some {A} (x y : option A) (v : A) :
  orelse x y = Some v -> x = Some v \/ (x = None /\ y = Some v).
Proof. destruct x; simpl; intros; [left | right]; auto. Qed.

Lemma string_app_assoc (a b c : string) : (a ++ (b ++ c) = (a ++ b) ++ c)%string.
Proof. induction a as [|x a IH]; simpl; congruence. Qed.

Lemma string_app_length (a b : string) :
  String.length (a ++ b) = String.length a + String.length b.
Proof. induction a as [|x a IH]; simpl; congruence. Qed.

(** A successful match runs its continuation on a suffix of the text:
    what is matched is a prefix of what was left. *)
Lemma exec_suffix (ml : bool) (r : Regex.t) :
  forall (A : Type) prev s (k : option ascii -> string -> option A) v,
    exec ml r A prev s k = Some v ->
    exists prev' t s', s = (t ++ s')%string /\ k prev' s' = Some v.
Proof.
  induction r as [|neg items|r1 IH1 r2 IH2|r1 IH1 r2 IH2|g r IH| | | |pos r IH|r IH];
    intros A prev s k v H; cbn [exec] in H.
  - exists prev, EmptyString, s. auto.
  - destruct s as [|c s']; [done|].
    destruct (in_set neg items c); [|done].
    exists (Some c), (String c EmptyString), s'. auto.
  - apply IH1 in H as (p1 & t1 & s1 & -> & H).
    apply IH2 in H as (p2 & t2 & s2 & -> & H).
    exists p2, (t1 ++ t2)%string, s2. by rewrite string_app_assoc.
  - apply orelse_Some in H as [H | [_ H]]; [by apply IH1 in H | by apply IH2 in H].
  - revert H. generalize (S (String.length s)) as n. intros n. revert prev s.
    induction n as [|n IHn]; intros prev s H; simpl in H.
    + exists prev, EmptyString, s. auto.
    + assert (k prev s = Some v \/
              exec ml r A prev s (fun prev' s' =>
                if (String.length s' <? String.length s)%nat
                then repeat (exec ml r) g A k n prev' s' else None) = Some v)
        as [Hk | Hr].
      { destruct g; apply orelse_Some in H as [H | [_ H]]; auto. }
      * exists prev, EmptyString, s. auto.
      * apply IH in Hr as (p1 & t1 & s1 & -> & Hr).
        destruct (String.length s1 <? String.length (t1 ++ s1))%nat; [|done].
        apply IHn in Hr as (p2 & t2 & s2 & -> & Hr).
        exists p2, (t1 ++ t2)%string, s2. by rewrite string_app_assoc.
  - exists prev, EmptyString, s. split; [done|].
    destruct prev as [c|]; [|done]. by destruct (ml && line_terminator c).
  - exists prev, EmptyString, s. split; [done|].
    destruct s as [|c s']; [done|]. by destruct (ml && line_terminator c).
  - exists prev, EmptyString, s. split; [done|].
    by destruct (xorb (holds word_char prev) (holds word_char (head s))).
  - exists prev, EmptyString, s. split; [done|].
    destruct (exec ml r unit prev s (fun _ _ => Some tt)); by destruct pos.
  - eapply IH. exact H.
Qed.

Lemma match_at_suffix (ml : bool) (r : Regex.t) prev s prev' s' :
  match_at ml r prev s = Some (prev', s') -> exists t, s = (t ++ s')%string.
Proof.
  unfold match_at. intros H.
  apply exec_suffix in H as (p & t & s1 & -> & H). simplify_eq. by exists t.
Qed.

Lemma last_app (t1 t2 : string) : forall p,
  last p (t1 ++ t2) = last (last p t1) t2.
Proof. induction t1 as [|c t1 IH]; intros p; simpl; [done | apply IH]. Qed.

(** A text that ends in a character of [\w] is not empty: its last
    character does not depend on what is before it. *)
Lemma last_word (t : string) (p : option ascii) :
  holds word_char (last None t) = true -> last p t = last None t.
Proof. destruct t as [|c t]; simpl; [done | reflexivity]. Qed.

Lemma ends_app_r (t1 t2 : string) :
  holds word_char (last None t2) = true ->
  holds word_char (last None (t1 ++ t2)) = true.
Proof. intros H. by rewrite last_app, (last_word _ _ H). Qed.

Lemma ends_app_l (t1 : string) :
  holds word_char (last None t1) = true ->
  holds word_char (last None (t1 ++ "")) = true.
Proof. intros H. by rewrite last_app. Qed.

Lemma within_word_in_range (rg : ascii * ascii) (c : ascii) :
  within_word rg = true -> in_range c rg = true -> word_char c = true.
Proof.
  unfold within_word, word_char, in_range.
  intros (w & Hw & Hin)%existsb_exists Hc. apply existsb_exists.
  exists w. split; [exact Hw|].
  apply andb_true_iff in Hin as [H1 H2]. apply andb_true_iff in Hc as [H3 H4].
  apply Nat.leb_le in H1, H2, H3, H4.
  apply andb_true_iff. split; apply Nat.leb_le; lia.
Qed.

Lemma in_set_within_word (items : list (ascii * ascii)) (c : ascii) :
  forallb within_word items = true -> in_set false items c = true ->
  word_char c = true.
Proof.
  unfold in_set. cbn [xorb]. intros Hall (rg & Hrg & Hc)%existsb_exists.
  eapply within_word_in_range; [|exact Hc].
  rewrite forallb_forall in Hall. by apply Hall.
Qed.

(** What [word_end] reads off the syntax holds of every match: the
    continuation runs after a text [t] that was matched, on the last
    character of it; [t] ends in a character of [\w] where the first
    component says so, and is empty or ends in one where the second
    does. *)
Lemma exec_ends (ml : bool) (r : Regex.t) :
  forall (A : Type) prev s (k : option ascii -> string -> option A) v,
    exec ml r A prev s k = Some v ->
    exists t s',
      s = (t ++ s')%string /\ k (last prev t) s' = Some v
      /\ (fst (word_end r) = true -> holds word_char (last None t) = true)
      /\ (snd (word_end r) = true ->
          t = "" \/ holds word_char (last None t) = true).
Proof.
  induction r as [|neg items|r1 IH1 r2 IH2|r1 IH1 r2 IH2|g r IH| | | |pos r IH|r IH];
    intros A prev s k v H; cbn [exec] in H.
  - exists EmptyString, s. cbn [word_end fst snd]. auto.
  - destruct s as [|c s']; [done|].
    destruct (in_set neg items c) eqn:Hc; [|done].
    exists (String c EmptyString), s'. cbn [word_end fst snd].
    assert (negb neg && forallb within_word items = true ->
            holds word_char (last None (String c "")) = true) as Hw.
    { intros [Hn Hall]%andb_true_iff. destruct neg; [done|].
      simpl. by eapply in_set_within_word. }
    split; [done|]. split; [exact H|]. split; [exact Hw|].
    intros He. right. by apply Hw.
  - apply IH1 in H as (t1 & s1 & -> & H & E1 & T1).
    apply IH2 in H as (t2 & s2 & -> & H & E2 & T2).
    exists (t1 ++ t2)%string, s2.
    split; [by rewrite string_app_assoc|]. split; [by rewrite last_app|].
    cbn [word_end]. destruct (word_end r1) as [e1 w1], (word_end r2) as [e2 w2].
    cbn [fst snd] in *.
    assert (e2 || w2 && e1 = true ->
            holds word_char (last None (t1 ++ t2)) = true) as Hw.
    { intros [He|[Hw He]%andb_true_iff]%orb_true_iff.
      - by apply ends_app_r, E2.
      - destruct (T2 Hw) as [-> | Ht2]; [by apply ends_app_l, E1 | by apply ends_app_r]. }
    split; [exact Hw|].
    intros [He|[Hw1 Hw2]%andb_true_iff]%orb_true_iff; [right; by apply Hw|].
    destruct (T2 Hw2) as [-> | Ht2]; [|right; by apply ends_app_r].
    destruct (T1 Hw1) as [-> | Ht1]; [by left | right; by apply ends_app_l].
  - cbn [word_end]. destruct (word_end r1) as [e1 w1], (word_end r2) as [e2 w2].
    cbn [fst snd] in *.
    apply orelse_Some in H as [H | [_ H]].
    + apply IH1 in H as (t1 & s1 & -> & H & E1 & T1). exists t1, s1.
      repeat split; [done| |]; intros [? ?]%andb_true_iff; auto.
    + apply IH2 in H as (t2 & s2 & -> & H & E2 & T2). exists t2, s2.
      repeat split; [done| |]; intros [? ?]%andb_true_iff; auto.
  - cbn [word_end fst snd].
    enough (exists t s', s = (t ++ s')%string /\ k (last prev t) s' = Some v
              /\ (snd (word_end r) = true ->
                  t = "" \/ holds word_char (last None t) = true))
      as (t & s' & ? & ? & ?) by (exists t, s'; repeat split; auto; done).
    revert H. generalize (S (String.length s)) as n. intros n. revert prev s.
    induction n as [|n IHn]; intros prev s H; simpl in H.
    + exists EmptyString, s. auto.
    + assert (k prev s = Some v \/
              exec ml r A prev s (fun prev' s' =>
                if (String.length s' <? String.length s)%nat
                then repeat (exec ml r) g A k n prev' s' else None) = Some v)
        as [Hk | Hr].
      { destruct g; apply orelse_Some in H as [H | [_ H]]; auto. }
      * exists EmptyString, s. auto.
      * apply IH in Hr as (t1 & s1 & -> & Hr & _ & T1).
        destruct (String.length s1 <? String.length (t1 ++ s1))%nat; [|done].
        apply IHn in Hr as (t2 & s2 & -> & Hr & T2).
        exists (t1 ++ t2)%string, s2.
        split; [by rewrite string_app_assoc|]. split; [by rewrite last_app|].
        intros Hw.
        destruct (T2 Hw) as [-> | Ht2]; [|right; by apply ends_app_r].
        destruct (T1 Hw) as [-> | Ht1]; [by left | right; by apply ends_app_l].
  - exists EmptyString, s. cbn [word_end fst snd]. repeat split; auto.
    destruct prev as [c|]; [|done]. by destruct (ml && line_terminator c).
  - exists EmptyString, s. cbn [word_end fst snd]. repeat split; auto.
    destruct s as [|c s']; [done|]. by destruct (ml && line_terminator c).
  - exists EmptyString, s. cbn [word_end fst snd]. repeat split; auto.
    by destruct (xorb (holds word_char prev) (holds word_char (head s))).
  - exists EmptyString, s. cbn [word_end fst snd]. repeat split; auto.
    destruct (exec ml r unit prev s (fun _ _ => Some tt)); by destruct pos.
  - cbn [word_end]. eapply IH. exact H.
Qed.
End RegexFacts.

(** * Properties of the lexer *)

Section MooFacts.
Context {K : Type}.
Implicit Types (L : Moo.Lexer K) (st : Moo.State) (tok : Moo.Token K).

Lemma string_app_nil_r (s : string) : (s ++ "")%string = s.
Proof. induction s; simpl; congruence. Qed.

Lemma consumed_app (t s' : string) : Moo.consumed (t ++ s') s' = t.
Proof.
  unfold Moo.consumed. rewrite string_app_length.
  replace (String.length t + String.length s' - String.length s')
    with (String.length t) by lia.
  induction t as [|c t IH]; simpl.
  - by destruct s'.
  - by rewrite IH.
Qed.

Lemma texts_cons tok (toks : list (Moo.Token K)) :
  Moo.texts (tok :: toks) = (Moo.text tok ++ Moo.texts toks)%string.
Proof.
  unfold Moo.texts. destruct toks as [|tok' toks]; simpl; [|done].
  by rewrite string_app_nil_r.
Qed.

Lemma first_match_suffix (gs : list (K * Moo.Rule)) (p : option ascii) (s : string)
      k rule p' s' :
  Moo.first_match gs p s = Some (k, rule, (p', s')) ->
  exists t, s = (t ++ s')%string.
Proof.
  induction gs as [|[k0 rule0] gs IH]; simpl; [done|].
  destruct (Regex.match_at true _ p s) as [[p1 s1]|] eqn:E; [|done].
  intros ?; simplify_eq. by eapply match_at_suffix.
Qed.

(** What [next] consumes is the text of the token it emits. *)
Lemma next_emit L st tok st' :
  Moo.next L st = Moo.Emit tok st' ->
  Moo.rest st = (Moo.text tok ++ Moo.rest st')%string
  /\ Moo.index st' = Moo.index st + String.length (Moo.text tok)
  /\ Moo.offset tok = Moo.index st.
Proof.
  unfold Moo.next. destruct (Moo.rest st) as [|c s] eqn:Hs; [done|].
  destruct (Moo.first_match _ _ _) as [[[k rule] [p' s']]|] eqn:E; [|done].
  apply first_match_suffix in E as [t Ht]. simpl. intros ?; simplify_eq.
  simpl. rewrite Ht, consumed_app. auto.
Qed.

(** [next] at a position where the first match is known. *)
Lemma next_first_match L st k rule p' (t s' : string) :
  Moo.rest st = (t ++ s')%string ->
  t <> "" ->
  Moo.first_match (Moo.groups L) (Moo.prev st) (t ++ s') = Some (k, rule, (p', s')) ->
  Moo.next L st =
  let lbs := if Moo.lineBreaks rule then Moo.count_newlines t else 0 in
  Moo.Emit
    {| Moo.type := k; Moo.value := t; Moo.text := t; Moo.offset := Moo.index st;
       Moo.tokenLineBreaks := lbs; Moo.line := Moo.curLine st;
       Moo.col := Moo.curCol st |}
    {| Moo.prev := p'; Moo.rest := s';
       Moo.index := Moo.index st + String.length t;
       Moo.curLine := Moo.curLine st + lbs;
       Moo.curCol := if (lbs =? 0)%nat then Moo.curCol st + String.length t
                     else Moo.after_last_newline t + 1 |}.
Proof.
  intros Hs Hne Hm. unfold Moo.next. rewrite Hs, Hm.
  destruct (t ++ s')%string eqn:E.
  { destruct t; [done | discriminate]. }
  simpl. rewrite <- E, consumed_app. reflexivity.
Qed.

Lemma next_emit_shorter L st tok st' :
  Moo.next L st = Moo.Emit tok st' ->
  Moo.text tok <> "" ->
  String.length (Moo.rest st') < String.length (Moo.rest st).
Proof.
  intros (-> & _)%next_emit Hne. rewrite string_app_length.
  destruct (Moo.text tok); [done | simpl; lia].
Qed.

(** The bound of [from] is enough: a larger one changes nothing. *)
Lemma drain_fuel L (n m : nat) : forall st,
  String.length (Moo.rest st) < n ->
  String.length (Moo.rest st) < m ->
  Moo.drain n L st = Moo.drain m L st.
Proof.
  revert m. induction n as [|n IH]; intros m st Hn Hm; [lia|].
  destruct m as [|m]; [lia|]. simpl.
  destruct (Moo.next L st) as [|tok st'|e] eqn:E; [done| |done].
  destruct (String.eqb_spec (Moo.text tok) ""); [done|].
  pose proof (next_emit_shorter _ _ _ _ E n0).
  f_equal. apply IH; lia.
Qed.

Lemma from_drain L st (n : nat) :
  String.length (Moo.rest st) < n -> Moo.from L st = Moo.drain n L st.
Proof. intros. unfold Moo.from. apply drain_fuel; lia. Qed.

(** One call of [next] that emits a token of one character or more,
    then the rest of the loop. *)
Lemma from_emit L st tok st' :
  Moo.next L st = Moo.Emit tok st' ->
  Moo.text tok <> "" ->
  Moo.from L st = Moo.push tok (Moo.from L st').
Proof.
  intros E Hne. unfold Moo.from at 1. simpl. rewrite E.
  destruct (String.eqb_spec (Moo.text tok) ""); [done|].
  f_equal. symmetry. apply from_drain.
  pose proof (next_emit_shorter _ _ _ _ E Hne). lia.
Qed.

Lemma drain_texts L (n : nat) : forall st toks,
  Moo.drain n L st = Moo.Tokens toks -> Moo.texts toks = Moo.rest st.
Proof.
  induction n as [|n IH]; intros st toks; simpl; [done|].
  destruct (Moo.next L st) as [|tok st'|e] eqn:E; [|  |done].
  - intros ?; simplify_eq. unfold Moo.next in E.
    destruct (Moo.rest st); [done|].
    by destruct (Moo.first_match _ _ _) as [[[? ?] ?]|].
  - destruct (String.eqb (Moo.text tok) ""); [done|].
    destruct (Moo.drain n L st') as [toks'| |] eqn:D; simpl; [|done..].
    intros ?; simplify_eq. rewrite texts_cons, (IH _ _ D).
    by apply next_emit in E as [-> _].
Qed.

(** No rule matching at a position that the lexer reaches makes the
    whole loop throw. *)
Lemma emits_throw L st toks st' e :
  Moo.emits L st toks st' ->
  Moo.next L st' = Moo.Throw e ->
  Moo.from L st = Moo.Throws e.
Proof.
  induction 1 as [st|st tok st1 toks st2 E Hne _ IH]; intros Ht.
  - unfold Moo.from. simpl. by rewrite Ht.
  - rewrite (from_emit _ _ _ _ E Hne), (IH Ht). done.
Qed.

Lemma emits_tokens L st toks st' :
  Moo.emits L st toks st' ->
  Moo.next L st' = Moo.Eof ->
  Moo.from L st = Moo.Tokens toks.
Proof.
  induction 1 as [st|st tok st1 toks st2 E Hne _ IH]; intros Ht.
  - unfold Moo.from. simpl. by rewrite Ht.
  - rewrite (from_emit _ _ _ _ E Hne), (IH Ht). done.
Qed.
End MooFacts.

(** * Properties of the tokenizer *)

Section TokenizerFacts.
Context {F : MooRegexFactory}.
Import Tokenizer.

Lemma normalize_kept (opts : list (TokenType * RuleOption)) :
  normalize opts = flat_map kept opts.
Proof.
  unfold normalize.
  enough (forall acc,
    fold_left
      (fun (rules : list (TokenType * Moo.Rule)) '(name, opt) =>
         match optMatch opt with
         | Some re =>
             (rules ++ [(name,
                         {| Moo.match_ := mkRegExp (source re) (normalized_flags (flags re));
                            Moo.lineBreaks := optLineBreaks opt |})])%list
         | None => rules
         end) opts acc = (acc ++ flat_map kept opts)%list) as H by apply H.
  induction opts as [|[name opt] opts IH]; intros acc; simpl.
  - by rewrite app_nil_r.
  - rewrite IH. unfold kept. simpl.
    destruct (optMatch opt); simpl; [by rewrite <- app_assoc | done].
Qed.

Lemma compile_groups {K} (rules : list (K * Moo.Rule)) (L : Moo.Lexer K) :
  Moo.compile rules = inr L -> Moo.groups L = rules.
Proof.
  unfold Moo.compile. destruct (Moo.compileRules None rules); [done|].
  by intros [= <-].
Qed.

Lemma constructor_groups (cfg : TokenizerOptions) (tk : Tokenizer.t) :
  constructor cfg = inr tk ->
  Moo.groups (LEXER tk) = flat_map kept (rule_options cfg).
Proof.
  unfold constructor. destruct (existsb rebuild_fails _); [done|].
  destruct (Moo.compile _) as [e|L] eqn:E; [done|].
  intros [= <-]. cbn [LEXER]. rewrite <- normalize_kept. by apply compile_groups.
Qed.

Lemma misses_match_at (r : Regex.t) prev s :
  Regex.misses r prev s = true -> Regex.match_at true r prev s = None.
Proof. unfold Regex.misses. by destruct (Regex.match_at true r prev s). Qed.

Lemma first_match_unclaimed (name : TokenType) (opt : RuleOption) gs prev s :
  unclaimed (optMatch opt) prev s = true ->
  Moo.first_match (kept (name, opt) ++ gs) prev s = Moo.first_match gs prev s.
Proof.
  unfold unclaimed, kept. simpl. destruct (optMatch opt) as [re|]; [|done].
  intros H. simpl. by rewrite (misses_match_at _ _ _ H).
Qed.

Lemma first_match_claimed (name : TokenType) (opt : RuleOption) gs prev s re m :
  optMatch opt = Some re ->
  Regex.match_at true (source re) prev s = Some m ->
  Moo.first_match (kept (name, opt) ++ gs) prev s =
  Some (name,
        {| Moo.match_ := mkRegExp (source re) (normalized_flags (flags re));
           Moo.lineBreaks := optLineBreaks opt |},
        m).
Proof. unfold kept. simpl. intros -> H. simpl. by rewrite H. Qed.

Lemma tokenize_from (tk : Tokenizer.t) (input : string) :
  tokenize tk input = Moo.from (LEXER tk) (Moo.reset input).
Proof. reflexivity. Qed.

(** The three rules at the head of every table. *)
Lemma constructor_groups_head (cfg : TokenizerOptions) (tk : Tokenizer.t) :
  constructor cfg = inr tk ->
  exists gs,
    Moo.groups (LEXER tk) =
    (kept (WS, rule (Regex.plus true (Regex.CharSet false [(" ", " "); ("009", "009")]%char)) "")
     ++ kept (NL, rule_lb (Regex.char "010") "")
     ++ kept (BLOCK_COMMENT, rule_lb block_comment_pattern "u")
     ++ gs)%list.
Proof.
  intros H. rewrite (constructor_groups _ _ H). unfold rule_options.
  cbn [flat_map]. eexists. reflexivity.
Qed.
End TokenizerFacts.

(** Skip the rule at the head of the table when its pattern, a written
    one, has no match at the position. *)
Ltac skip_rule :=
  rewrite first_match_unclaimed by (vm_compute; reflexivity).

Lemma sample_constructed :
  @Tokenizer.constructor SpecFactory.factory SpecFactory.cfg = inr SpecFactory.tokenizer.
Proof. vm_compute. reflexivity. Qed.

(** C1: when [tokenize] returns the tokens of an input, the texts of the
    tokens, joined in order, are the input. *)
Theorem C1_round_trip (tk : Tokenizer.t) (input : string)
        (toks : list (Moo.Token TokenType)) :
  Tokenizer.tokenize tk input = Moo.Tokens toks ->
  String.concat "" (map Moo.text toks) = input.
Proof. unfold Tokenizer.tokenize, Moo.from. apply drain_texts. Qed.

Lemma C1_round_trip_witness :
  exists toks,
    Tokenizer.tokenize SpecFactory.tokenizer "SELECT a, b FROM t" = Moo.Tokens toks
    /\ String.concat "" (map Moo.text toks) = "SELECT a, b FROM t".
Proof.
  eexists. split; [vm_compute; reflexivity|].
  apply (C1_round_trip SpecFactory.tokenizer). vm_compute. reflexivity.
Defined.

(** C2, as the code has it: when the lexer, after some tokens, stands
    before a character at which no rule matches, [tokenize] throws the
    "invalid syntax" error of that position; the tokens before it are not
    returned. *)
Theorem C2_no_match_throws (tk : Tokenizer.t) (input : string)
        (toks : list (Moo.Token TokenType)) (st : Moo.State) :
  Moo.emits (Tokenizer.LEXER tk) (Moo.reset input) toks st ->
  Moo.rest st <> "" ->
  Moo.first_match (Moo.groups (Tokenizer.LEXER tk)) (Moo.prev st) (Moo.rest st) = None ->
  Tokenizer.tokenize tk input =
  Moo.Throws {| Moo.errorOffset := Moo.index st;
                Moo.errorLine := Moo.curLine st;
                Moo.errorCol := Moo.curCol st |}.
Proof.
  intros He Hne Hm. unfold Tokenizer.tokenize.
  apply (emits_throw _ _ _ _ _ He).
  unfold Moo.next. destruct (Moo.rest st); [done|]. by rewrite Hm.
Qed.

Lemma sample_emits_a_space :
  Moo.emits (Tokenizer.LEXER SpecFactory.tokenizer) (Moo.reset "a !")
    [ {| Moo.type := WORD; Moo.value := "a"; Moo.text := "a"; Moo.offset := 0;
         Moo.tokenLineBreaks := 0; Moo.line := 1; Moo.col := 1 |};
      {| Moo.type := WS; Moo.value := " "; Moo.text := " "; Moo.offset := 1;
         Moo.tokenLineBreaks := 0; Moo.line := 1; Moo.col := 2 |} ]
    {| Moo.prev := Some " "%char; Moo.rest := "!"; Moo.index := 2;
       Moo.curLine := 1; Moo.curCol := 3 |}.
Proof.
  eapply Moo.emits_cons; [vm_compute; reflexivity | discriminate |].
  eapply Moo.emits_cons; [vm_compute; reflexivity | discriminate |].
  apply Moo.emits_nil.
Qed.

Lemma C2_no_match_throws_witness :
  Tokenizer.tokenize SpecFactory.tokenizer "a !" =
  Moo.Throws {| Moo.errorOffset := 2; Moo.errorLine := 1; Moo.errorCol := 3 |}.
Proof.
  apply (C2_no_match_throws SpecFactory.tokenizer "a !" _ _ sample_emits_a_space).
  - discriminate.
  - vm_compute. reflexivity.
Defined.

(** C2, refuted as stated: for the input "a !", the lexer emits the word
    and the space and then stands before "!", where no rule matches;
    [tokenize] does not return these two tokens, nor any list of tokens:
    it throws. *)
Lemma C2_unmatched_character_is_an_error :
  exists toks st,
    @Tokenizer.constructor SpecFactory.factory SpecFactory.cfg = inr SpecFactory.tokenizer
    /\ Moo.emits (Tokenizer.LEXER SpecFactory.tokenizer) (Moo.reset "a !") toks st
    /\ map Moo.text toks = ["a"; " "]
    /\ Moo.rest st = "!"
    /\ Moo.first_match (Moo.groups (Tokenizer.LEXER SpecFactory.tokenizer))
         (Moo.prev st) (Moo.rest st) = None
    /\ Tokenizer.tokenize SpecFactory.tokenizer "a !" <> Moo.Tokens toks
    /\ exists e, Tokenizer.tokenize SpecFactory.tokenizer "a !" = Moo.Throws e.
Proof.
  eexists _, _. split; [apply sample_constructed|].
  split; [apply sample_emits_a_space|].
  split; [reflexivity|]. split; [reflexivity|].
  split; [vm_compute; reflexivity|].
  split; [vm_compute; discriminate|].
  eexists. vm_compute. reflexivity.
Qed.

(** * Block comments within one line *)

Section BlockCommentFacts.
Import Regex Tokenizer.

Lemma in_range_single (c x : ascii) : in_range c (x, x) = Ascii.eqb c x.
Proof.
  unfold in_range. simpl. destruct (Ascii.eqb_spec c x) as [->|Hne].
  - by rewrite Nat.leb_refl.
  - apply andb_false_iff.
    destruct (Nat.leb_spec (nat_of_ascii x) (nat_of_ascii c)) as [H1|H1]; [|by left].
    destruct (Nat.leb_spec (nat_of_ascii c) (nat_of_ascii x)) as [H2|H2]; [|by right].
    exfalso. apply Hne.
    rewrite <- (ascii_nat_embedding c), <- (ascii_nat_embedding x). f_equal. lia.
Qed.

(** The end of a comment does not match before a character that is
    neither a line terminator nor the start of a closer. *)
Lemma block_comment_end_misses {A} prev c s (k : option ascii -> string -> option A) :
  line_terminator c = false ->
  Ascii.eqb c "*" && holds (Ascii.eqb "/") (head s) = false ->
  exec true block_comment_end A prev (String c s) k = None.
Proof.
  intros Hlt Hcl. unfold block_comment_end. cbn [exec lit char]. rewrite Hlt.
  unfold in_set. cbn [existsb xorb]. rewrite !orb_false_r, in_range_single.
  destruct (Ascii.eqb c "*"); [|done]. cbn [andb] in Hcl.
  destruct s as [|d s]; [done|]. cbn [holds head] in Hcl.
  rewrite in_range_single, Ascii.eqb_sym, Hcl. done.
Qed.

(** The lazy loop [[^]*?] runs over a text at no position of which its
    continuation succeeds, and stops where it does. *)
Lemma lazy_any_runs {A} (k : option ascii -> string -> option A) (v : A) (t : string) :
  (forall p c b, one_line (String c b) = true -> closer_free (String c b) = true ->
                 k p (String c (b ++ t)) = None) ->
  forall (body : string) (n : nat) (prev : option ascii),
    String.length (body ++ t) < n ->
    one_line body = true -> closer_free body = true ->
    k (last prev body) t = Some v ->
    repeat (exec true any_char) false A k n prev (body ++ t) = Some v.
Proof.
  intros Hskip. induction body as [|c b IH]; intros n prev Hn H1 H2 Hk;
    (destruct n as [|n]; [lia|]); cbn [repeat String.append last] in *.
  - by rewrite Hk.
  - rewrite (Hskip prev c b H1 H2). cbn [orelse exec any_char].
    unfold in_set. cbn [existsb xorb].
    assert ((String.length (b ++ t) <? String.length (String c (b ++ t)))%nat = true)
      as -> by (apply Nat.ltb_lt; simpl; lia).
    simpl in H1, H2. apply andb_prop in H1 as [_ H1], H2 as [_ H2].
    apply IH; [simpl in Hn; lia | done..].
Qed.

(** The comment loop stops at the end of the input or at a closer, not
    before, on a text of one line without a closer. *)
Lemma block_comment_end_skips {A} (k : option ascii -> string -> option A) (t : string) :
  holds (Ascii.eqb "/") (head t) = false ->
  forall p c b, one_line (String c b) = true -> closer_free (String c b) = true ->
                exec true block_comment_end A p (String c (b ++ t)) k = None.
Proof.
  intros Ht p c b H1 H2. simpl in H1, H2.
  apply andb_prop in H1 as [H1 _], H2 as [H2 _].
  apply block_comment_end_misses.
  - by destruct (line_terminator c).
  - destruct (Ascii.eqb c "*"); [|done]. cbn [andb] in *.
    destruct b as [|d b]; cbn [String.append head holds] in *; [done|].
    by apply negb_true_iff in H2.
Qed.

(** An unterminated comment of one line is matched up to the end of the
    input. *)
Lemma block_comment_unterminated (body : string) :
  one_line body = true -> closer_free body = true ->
  match_at true block_comment_pattern None ("/*" ++ body) =
  Some (last (Some "*"%char) body, "").
Proof.
  intros H1 H2. unfold match_at, block_comment_pattern.
  cbn [seq exec lit char String.append in_set existsb in_range fst snd].
  change ((nat_of_ascii "/" <=? nat_of_ascii "/")%nat) with true.
  change ((nat_of_ascii "*" <=? nat_of_ascii "*")%nat) with true.
  cbn [andb orb xorb].
  rewrite <- (string_app_nil_r body) at 1 2.
  apply lazy_any_runs; [|rewrite string_app_nil_r; lia|done..].
  by apply block_comment_end_skips.
Qed.

(** A terminated comment whose text is of one line is matched up to its
    first closer. *)
Lemma block_comment_terminated (body rest : string) :
  one_line body = true -> closer_free body = true ->
  match_at true block_comment_pattern None ("/*" ++ body ++ "*/" ++ rest) =
  Some (Some "/"%char, rest).
Proof.
  intros H1 H2. unfold match_at, block_comment_pattern.
  cbn [seq exec lit char String.append in_set existsb in_range fst snd].
  change ((nat_of_ascii "/" <=? nat_of_ascii "/")%nat) with true.
  change ((nat_of_ascii "*" <=? nat_of_ascii "*")%nat) with true.
  cbn [andb orb xorb].
  apply lazy_any_runs; [|lia|done..].
  by apply block_comment_end_skips.
Qed.

Lemma one_line_count_newlines (s : string) :
  one_line s = true -> Moo.count_newlines s = 0.
Proof.
  induction s as [|c s IH]; simpl; [done|].
  intros [H1 H2]%andb_prop. rewrite (IH H2).
  unfold line_terminator in H1. by destruct (Ascii.eqb c "010").
Qed.

(** Where the code meets C7: an unterminated block comment of one line,
    at the start of the input, is a single block-comment token up to the
    end of the input, for every tokenizer. *)
Lemma tokenize_block_comment_unterminated {F : MooRegexFactory}
      (cfg : TokenizerOptions) (tk : Tokenizer.t) (body : string) :
  constructor cfg = inr tk ->
  one_line body = true -> closer_free body = true ->
  tokenize tk ("/*" ++ body) =
  Moo.Tokens
    [ {| Moo.type := BLOCK_COMMENT; Moo.value := "/*" ++ body;
         Moo.text := "/*" ++ body; Moo.offset := 0; Moo.tokenLineBreaks := 0;
         Moo.line := 1; Moo.col := 1 |} ].
Proof.
  intros H H1 H2. apply constructor_groups_head in H as [gs Hgs].
  rewrite tokenize_from.
  assert (Moo.next (LEXER tk) (Moo.reset ("/*" ++ body)) =
          Moo.Emit
            {| Moo.type := BLOCK_COMMENT; Moo.value := "/*" ++ body;
               Moo.text := "/*" ++ body; Moo.offset := 0; Moo.tokenLineBreaks := 0;
               Moo.line := 1; Moo.col := 1 |}
            {| Moo.prev := last (Some "*"%char) body; Moo.rest := "";
               Moo.index := String.length ("/*" ++ body); Moo.curLine := 1;
               Moo.curCol := 1 + String.length ("/*" ++ body) |}) as Hnext.
  { rewrite (next_first_match _ _ BLOCK_COMMENT
               {| Moo.match_ := mkRegExp block_comment_pattern (normalized_flags ["u"%char]);
                  Moo.lineBreaks := true |}
               (last (Some "*"%char) body) ("/*" ++ body) "").
    - cbn [Moo.lineBreaks Moo.reset Moo.index Moo.curLine Moo.curCol].
      rewrite (one_line_count_newlines ("/*" ++ body)) by done. reflexivity.
    - cbn [Moo.reset Moo.rest]. by rewrite string_app_nil_r.
    - discriminate.
    - rewrite Hgs, string_app_nil_r. cbn [Moo.reset Moo.prev].
      do 2 skip_rule.
      erewrite first_match_claimed;
        [|reflexivity|by apply block_comment_unterminated]. reflexivity. }
  eapply emits_tokens;
    [eapply Moo.emits_cons; [exact Hnext|discriminate|apply Moo.emits_nil]
    |reflexivity].
Qed.

(** Where the code meets C7: a block comment at the start of the input
    whose text up to its first closer is of one line is emitted up to that
    closer, for every tokenizer. *)
Lemma next_block_comment_terminated {F : MooRegexFactory}
      (cfg : TokenizerOptions) (tk : Tokenizer.t) (body rest : string) :
  constructor cfg = inr tk ->
  one_line body = true -> closer_free body = true ->
  Moo.next (LEXER tk) (Moo.reset (("/*" ++ body ++ "*/") ++ rest)) =
  Moo.Emit
    {| Moo.type := BLOCK_COMMENT; Moo.value := "/*" ++ body ++ "*/";
       Moo.text := "/*" ++ body ++ "*/"; Moo.offset := 0; Moo.tokenLineBreaks := 0;
       Moo.line := 1; Moo.col := 1 |}
    {| Moo.prev := Some "/"%char; Moo.rest := rest;
       Moo.index := String.length ("/*" ++ body ++ "*/");
       Moo.curLine := 1;
       Moo.curCol := 1 + String.length ("/*" ++ body ++ "*/") |}.
Proof.
  intros H H1 H2. apply constructor_groups_head in H as [gs Hgs].
  assert (one_line ("/*" ++ body ++ "*/") = true) as Hone.
  { cbn [String.append one_line]. simpl. clear -H1.
    induction body as [|c b IH]; simpl in *; [done|].
    apply andb_prop in H1 as [-> H1]. by apply IH. }
  rewrite (next_first_match _ _ BLOCK_COMMENT
             {| Moo.match_ := mkRegExp block_comment_pattern (normalized_flags ["u"%char]);
                Moo.lineBreaks := true |}
             (Some "/"%char) ("/*" ++ body ++ "*/") rest).
  - cbn [Moo.lineBreaks Moo.reset Moo.index Moo.curLine Moo.curCol].
    rewrite (one_line_count_newlines _ Hone). reflexivity.
  - reflexivity.
  - discriminate.
  - rewrite Hgs. cbn [Moo.reset Moo.prev].
    assert ((("/*" ++ body ++ "*/") ++ rest)%string = ("/*" ++ body ++ "*/" ++ rest)%string)
      as Heq.
    { cbn [String.append]. do 2 f_equal. by rewrite <- string_app_assoc. }
    rewrite Heq.
    do 2 skip_rule.
    erewrite first_match_claimed;
      [|reflexivity|by apply block_comment_terminated]. reflexivity.
Qed.
End BlockCommentFacts.

(** C7, at an input where the code departs from it: for the unterminated
    comment "/* abc", a line feed and "def", the first token that any
    tokenizer emits is a block comment that ends before the line feed, and
    the lexer goes on from there; so [tokenize] never returns a single
    token for this input. *)
Theorem C7_block_comment_ends_at_line_end {F : MooRegexFactory}
        (cfg : TokenizerOptions) (tk : Tokenizer.t) :
  Tokenizer.constructor cfg = inr tk ->
  Moo.next (Tokenizer.LEXER tk) (Moo.reset ("/* abc" ++ String "010" "def")) =
  Moo.Emit
    {| Moo.type := BLOCK_COMMENT; Moo.value := "/* abc"; Moo.text := "/* abc";
       Moo.offset := 0; Moo.tokenLineBreaks := 0; Moo.line := 1; Moo.col := 1 |}
    {| Moo.prev := Some "c"%char; Moo.rest := String "010" "def"; Moo.index := 6;
       Moo.curLine := 1; Moo.curCol := 7 |}
  /\ forall tok,
       Tokenizer.tokenize tk ("/* abc" ++ String "010" "def") <> Moo.Tokens [tok].
Proof.
  intros H. apply constructor_groups_head in H as [gs Hgs].
  assert (Moo.next (Tokenizer.LEXER tk) (Moo.reset ("/* abc" ++ String "010" "def")) =
          Moo.Emit
            {| Moo.type := BLOCK_COMMENT; Moo.value := "/* abc"; Moo.text := "/* abc";
               Moo.offset := 0; Moo.tokenLineBreaks := 0; Moo.line := 1; Moo.col := 1 |}
            {| Moo.prev := Some "c"%char; Moo.rest := String "010" "def"; Moo.index := 6;
               Moo.curLine := 1; Moo.curCol := 7 |}) as Hnext.
  { unfold Moo.next. rewrite Hgs. cbn [Moo.reset Moo.rest Moo.prev].
    set (input := ("/* abc" ++ _)%string). vm_compute in input. subst input.
    do 2 skip_rule.
    erewrite first_match_claimed; [|reflexivity|vm_compute; reflexivity].
    vm_compute. reflexivity. }
  split; [exact Hnext|].
  intros tok Htok. unfold Tokenizer.tokenize in Htok.
  rewrite (from_emit _ _ _ _ Hnext) in Htok by discriminate.
  destruct (Moo.from _ _) as [toks'| |] eqn:E; simpl in Htok; [|done..].
  injection Htok as _ ->.
  unfold Moo.from in E. by apply drain_texts in E.
Qed.

Lemma C7_block_comment_ends_at_line_end_witness :
  Moo.next (Tokenizer.LEXER SpecFactory.tokenizer)
           (Moo.reset ("/* abc" ++ String "010" "def")) =
  Moo.Emit
    {| Moo.type := BLOCK_COMMENT; Moo.value := "/* abc"; Moo.text := "/* abc";
       Moo.offset := 0; Moo.tokenLineBreaks := 0; Moo.line := 1; Moo.col := 1 |}
    {| Moo.prev := Some "c"%char; Moo.rest := String "010" "def"; Moo.index := 6;
       Moo.curLine := 1; Moo.curCol := 7 |}.
Proof.
  apply (@C7_block_comment_ends_at_line_end SpecFactory.factory SpecFactory.cfg).
  vm_compute. reflexivity.
Defined.

(** * The operator rule *)

Section OperatorFacts.
Import Regex.

(** A literal matches the text that starts with it, and nothing else. *)
Lemma lit_exec (ml : bool) (op : string) :
  forall (A : Type) prev s (k : option ascii -> string -> option A),
    exec ml (lit op) A prev s k =
    match Table.starts_with op s with
    | Some tail => k (last prev op) tail
    | None => None
    end.
Proof.
  induction op as [|a op IH]; intros A prev s k; [reflexivity|].
  cbn [lit exec char]. destruct s as [|b s']; [reflexivity|].
  unfold in_set. cbn [existsb xorb Table.starts_with last].
  rewrite in_range_single, orb_false_r.
  destruct (Ascii.eqb_spec b a) as [->|Hne]; [|reflexivity]. apply IH.
Qed.

(** Of a list of literals, the first that the text starts with is the
    one matched. *)
Lemma alt_lit_match (ml : bool) (ops : list string) prev s :
  match_at ml (alt (map lit ops)) prev s =
  match Table.first_listed ops s with
  | Some (op, tail) => Some (last prev op, tail)
  | None => None
  end.
Proof.
  unfold match_at. induction ops as [|op ops IH].
  - simpl. by destruct s.
  - destruct ops as [|op2 ops].
    + cbn [map alt Table.first_listed]. rewrite lit_exec.
      by destruct (Table.starts_with op s).
    + change (alt (map lit (op :: op2 :: ops)))
        with (Alt (lit op) (alt (map lit (op2 :: ops)))).
      cbn [exec]. rewrite IH, lit_exec.
      cbn [Table.first_listed]. by destruct (Table.starts_with op s).
Qed.

Lemma in_set_one_of (cs : list ascii) (c : ascii) :
  existsb (in_range c) (map (fun x => (x, x)) cs) = existsb (Ascii.eqb c) cs.
Proof.
  induction cs as [|x cs IH]; [reflexivity|].
  cbn [map existsb]. by rewrite in_range_single, IH.
Qed.

(** The match of the operator pattern: the first listed multi-character
    operator that the text starts with; failing that, its first
    character when it is one of the single-character operators. *)
Lemma operator_source_match (ml : bool) (monads : string) (polyads : list string)
      prev s :
  match_at ml (Alt (alt (map lit polyads)) (CharSet false (SpecFactory.one_of monads)))
    prev s =
  match Table.first_listed polyads s with
  | Some (op, tail) => Some (last prev op, tail)
  | None =>
      match s with
      | String c tail =>
          if existsb (Ascii.eqb c) (list_ascii_of_string monads)
          then Some (Some c, tail) else None
      | EmptyString => None
      end
  end.
Proof.
  pose proof (alt_lit_match ml polyads prev s) as H. unfold match_at in *.
  cbn [exec]. rewrite H.
  destruct (Table.first_listed polyads s) as [[op tail]|]; [reflexivity|].
  cbn [orelse]. destruct s as [|c tail]; [reflexivity|].
  unfold in_set, SpecFactory.one_of. cbn [xorb]. by rewrite in_set_one_of.
Qed.

Lemma starts_with_app (op : string) : forall s tail,
  Table.starts_with op s = Some tail -> s = (op ++ tail)%string.
Proof.
  induction op as [|a op IH]; intros s tail; simpl; [by intros [= ->]|].
  destruct s as [|b s]; [done|].
  destruct (Ascii.eqb_spec b a) as [->|]; [|done].
  intros H. by rewrite (IH _ _ H).
Qed.

Lemma first_listed_app (ops : list string) (s op tail : string) :
  Table.first_listed ops s = Some (op, tail) -> s = (op ++ tail)%string.
Proof.
  induction ops as [|o ops IH]; simpl; [done|].
  destruct (Table.starts_with o s) as [t|] eqn:E; [|exact IH].
  intros [= <- <-]. by apply starts_with_app.
Qed.

(** When the empty operator is the first listed one somewhere, the list
    has a first listed operator for the empty text. *)
Lemma first_listed_empty (ops : list string) (s tail : string) :
  Table.first_listed ops s = Some (EmptyString, tail) ->
  Table.first_listed ops "" <> None.
Proof.
  induction ops as [|o ops IH]; simpl; [done|].
  destruct (Table.starts_with o s) as [t|] eqn:E.
  - intros [= -> _]. done.
  - intros H. destruct (Table.starts_with o ""); [done | by apply IH].
Qed.

Lemma first_match_app {K} (gs1 gs2 : list (K * Moo.Rule)) prev s :
  Moo.first_match gs1 prev s = None ->
  Moo.first_match (gs1 ++ gs2) prev s = Moo.first_match gs2 prev s.
Proof.
  induction gs1 as [|[k rule] gs1 IH]; simpl; [done|].
  destruct (match_at true (source (Moo.match_ rule)) prev s); [done | exact IH].
Qed.

(** A compiled table has no rule whose pattern matches the empty
    string. *)
Lemma compileRules_not_empty {K} (rules : list (K * Moo.Rule)) : forall u0 u,
  Moo.compileRules u0 rules = inr u ->
  forall k rule, In (k, rule) rules ->
    test false (source (Moo.match_ rule)) "" = false.
Proof.
  induction rules as [|[k0 rule0] rules IH]; intros u0 u; simpl; [done|].
  destruct (Moo.check_rule u0 rule0) as [e|u1] eqn:E; [done|].
  intros H k rule [Heq|Hin]; [|by eapply IH].
  injection Heq as _ <-. unfold Moo.check_rule in E.
  destruct (match u0 with Some _ => _ | None => _ end); [done|].
  do 4 (destruct (has_flag _ _); [done|]).
  by destruct (test false _ "").
Qed.

Context {F : MooRegexFactory}.

Lemma constructor_not_empty (cfg : TokenizerOptions) (tk : Tokenizer.t) :
  Tokenizer.constructor cfg = inr tk ->
  forall k rule, In (k, rule) (flat_map Tokenizer.kept (Tokenizer.rule_options cfg)) ->
    test false (source (Moo.match_ rule)) "" = false.
Proof.
  unfold Tokenizer.constructor.
  destruct (existsb Tokenizer.rebuild_fails _); [done|].
  unfold Moo.compile. rewrite normalize_kept.
  destruct (Moo.compileRules None _) as [e|u] eqn:E; [done|]. intros _.
  by eapply compileRules_not_empty.
Qed.

(** The written table, split at the operator rule. *)
Lemma rule_options_operator (cfg : TokenizerOptions) :
  flat_map Tokenizer.kept (Tokenizer.rule_options cfg) =
  (flat_map Tokenizer.kept (Table.before_operator cfg)
   ++ Tokenizer.kept (OPERATOR, Tokenizer.built (Tokenizer.operator_match cfg))
   ++ flat_map Tokenizer.kept (skipn 10 (Tokenizer.rule_options cfg)))%list.
Proof.
  assert (Tokenizer.rule_options cfg =
          (Table.before_operator cfg
           ++ (OPERATOR, Tokenizer.built (Tokenizer.operator_match cfg))
              :: skipn 10 (Tokenizer.rule_options cfg))%list) as H by reflexivity.
  rewrite H at 1. by rewrite flat_map_app.
Qed.

(** With the operator pattern that tries the multi-character operators
    first, a tokenizer that was constructed lists no empty operator
    before one that the text starts with. *)
Lemma first_listed_not_empty (cfg : TokenizerOptions) (tk : Tokenizer.t) s op tail :
  @operatorRegex F = SpecFactory.operatorRegex ->
  Tokenizer.constructor cfg = inr tk ->
  Table.first_listed (Table.polyad_operators cfg) s = Some (op, tail) ->
  op <> "".
Proof.
  intros Hop H Hfl ->. apply first_listed_empty in Hfl. apply Hfl.
  assert (test false
            (Alt (alt (map lit (Table.polyad_operators cfg)))
                 (CharSet false (SpecFactory.one_of Table.monad_operators))) "" = false)
    as Hne.
  { apply (constructor_not_empty cfg tk H OPERATOR
             {| Moo.match_ :=
                  mkRegExp
                    (Alt (alt (map lit (Table.polyad_operators cfg)))
                         (CharSet false (SpecFactory.one_of Table.monad_operators)))
                    (Tokenizer.normalized_flags SpecFactory.u_flag);
                Moo.lineBreaks := false |}).
    rewrite rule_options_operator. apply in_or_app. right.
    apply in_or_app. left.
    unfold Tokenizer.kept, Tokenizer.operator_match. rewrite Hop.
    left. reflexivity. }
  unfold test in Hne. cbn [test_from] in Hne.
  rewrite operator_source_match in Hne.
  by destruct (Table.first_listed (Table.polyad_operators cfg) "") as [[o t]|].
Qed.

(** What the lexer finds at a position that no rule before the operator
    rule claims, when the operator pattern has a match there. *)
Lemma operator_first_match (cfg : TokenizerOptions) (tk : Tokenizer.t) prev s m :
  @operatorRegex F = SpecFactory.operatorRegex ->
  Tokenizer.constructor cfg = inr tk ->
  Moo.first_match (flat_map Tokenizer.kept (Table.before_operator cfg)) prev s = None ->
  match_at true
    (Alt (alt (map lit (Table.polyad_operators cfg)))
         (CharSet false (SpecFactory.one_of Table.monad_operators))) prev s = Some m ->
  exists rule,
    Moo.lineBreaks rule = false
    /\ Moo.first_match (Moo.groups (Tokenizer.LEXER tk)) prev s = Some (OPERATOR, rule, m).
Proof.
  intros Hop H Hbefore Hm.
  rewrite (constructor_groups _ _ H), rule_options_operator.
  rewrite first_match_app by exact Hbefore.
  unfold Tokenizer.operator_match. rewrite Hop.
  eexists. split; [|by apply first_match_claimed]. reflexivity.
Qed.
End OperatorFacts.

(** C8: with the operator pattern that tries the multi-character
    operators first, at a position that no rule written before the
    operator rule claims: when the text starts with one of the
    multi-character operators that the constructor passes, the four fixed
    ones and then the configured ones, the next token is the operator rule's
    and its text is the first of them in that order, whole, never its first
    character alone; when it starts with none, and its first character is a
    single-character operator, the next token is that character. So, when
    the line-comment pattern does not claim the text, [tokenize] returns
    for "<>" the one operator token "<>". *)
Theorem C8_multi_character_operator_first {F : MooRegexFactory}
        (cfg : TokenizerOptions) (tk : Tokenizer.t) :
  @operatorRegex F = SpecFactory.operatorRegex ->
  Tokenizer.constructor cfg = inr tk ->
  (forall (st : Moo.State) (op tail : string),
      Table.first_listed (Table.polyad_operators cfg) (Moo.rest st) = Some (op, tail) ->
      Moo.first_match (flat_map Tokenizer.kept (Table.before_operator cfg))
        (Moo.prev st) (Moo.rest st) = None ->
      Moo.rest st = (op ++ tail)%string
      /\ op <> ""
      /\ Moo.next (Tokenizer.LEXER tk) st =
         Moo.Emit
           {| Moo.type := OPERATOR; Moo.value := op; Moo.text := op;
              Moo.offset := Moo.index st; Moo.tokenLineBreaks := 0;
              Moo.line := Moo.curLine st; Moo.col := Moo.curCol st |}
           {| Moo.prev := Regex.last (Moo.prev st) op; Moo.rest := tail;
              Moo.index := Moo.index st + String.length op;
              Moo.curLine := Moo.curLine st;
              Moo.curCol := Moo.curCol st + String.length op |})
  /\ (forall (st : Moo.State) (c : ascii) (tail : string),
        Moo.rest st = String c tail ->
        Table.first_listed (Table.polyad_operators cfg) (Moo.rest st) = None ->
        existsb (Ascii.eqb c) (list_ascii_of_string Table.monad_operators) = true ->
        Moo.first_match (flat_map Tokenizer.kept (Table.before_operator cfg))
          (Moo.prev st) (Moo.rest st) = None ->
        Moo.next (Tokenizer.LEXER tk) st =
        Moo.Emit
          {| Moo.type := OPERATOR; Moo.value := String c ""; Moo.text := String c "";
             Moo.offset := Moo.index st; Moo.tokenLineBreaks := 0;
             Moo.line := Moo.curLine st; Moo.col := Moo.curCol st |}
          {| Moo.prev := Some c; Moo.rest := tail;
             Moo.index := Moo.index st + 1;
             Moo.curLine := Moo.curLine st;
             Moo.curCol := Moo.curCol st + 1 |})
  /\ (Tokenizer.unclaimed (Tokenizer.line_comment_match cfg) None "<>" = true ->
      Tokenizer.tokenize tk "<>" =
      Moo.Tokens
        [ {| Moo.type := OPERATOR; Moo.value := "<>"; Moo.text := "<>";
             Moo.offset := 0; Moo.tokenLineBreaks := 0; Moo.line := 1;
             Moo.col := 1 |} ]).
Proof.
  intros Hop H.
  assert (forall (st : Moo.State) (op tail : string),
      Table.first_listed (Table.polyad_operators cfg) (Moo.rest st) = Some (op, tail) ->
      Moo.first_match (flat_map Tokenizer.kept (Table.before_operator cfg))
        (Moo.prev st) (Moo.rest st) = None ->
      Moo.rest st = (op ++ tail)%string
      /\ op <> ""
      /\ Moo.next (Tokenizer.LEXER tk) st =
         Moo.Emit
           {| Moo.type := OPERATOR; Moo.value := op; Moo.text := op;
              Moo.offset := Moo.index st; Moo.tokenLineBreaks := 0;
              Moo.line := Moo.curLine st; Moo.col := Moo.curCol st |}
           {| Moo.prev := Regex.last (Moo.prev st) op; Moo.rest := tail;
              Moo.index := Moo.index st + String.length op;
              Moo.curLine := Moo.curLine st;
              Moo.curCol := Moo.curCol st + String.length op |}) as Hpolyad.
  { intros st op tail Hfl Hbefore.
    pose proof (first_listed_app _ _ _ _ Hfl) as Hs.
    pose proof (first_listed_not_empty cfg tk _ _ _ Hop H Hfl) as Hne.
    split; [exact Hs|]. split; [exact Hne|].
    destruct (operator_first_match cfg tk (Moo.prev st) (Moo.rest st)
                (Regex.last (Moo.prev st) op, tail) Hop H Hbefore)
      as (rule & Hlb & Hfm).
    { rewrite operator_source_match. fold (Table.polyad_operators cfg).
      by rewrite Hfl. }
    rewrite Hs in Hfm.
    rewrite (next_first_match _ _ _ _ _ _ _ Hs Hne Hfm), Hlb.
    cbn [Nat.eqb]. by rewrite Nat.add_0_r. }
  split; [exact Hpolyad|]. split.
  - intros st c tail Hs Hfl Hc Hbefore.
    destruct (operator_first_match cfg tk (Moo.prev st) (Moo.rest st)
                (Some c, tail) Hop H Hbefore)
      as (rule & Hlb & Hfm).
    { rewrite operator_source_match. fold (Table.polyad_operators cfg).
      rewrite Hfl, Hs. by rewrite Hc. }
    rewrite Hs in Hfm.
    rewrite (next_first_match _ st _ _ _ (String c "") tail Hs ltac:(discriminate) Hfm), Hlb.
    cbn [Nat.eqb String.length]. by rewrite Nat.add_0_r.
  - intros Hlc. rewrite tokenize_from.
    apply emits_tokens with
      (st' := {| Moo.prev := Some ">"%char; Moo.rest := ""; Moo.index := 2;
                 Moo.curLine := 1; Moo.curCol := 3 |}); [|reflexivity].
    eapply Moo.emits_cons; [|discriminate|apply Moo.emits_nil].
    destruct (Hpolyad (Moo.reset "<>") "<>" "") as (_ & _ & Hnext); [reflexivity| |exact Hnext].
    unfold Table.before_operator, Tokenizer.rule_options.
    cbn [firstn flat_map Moo.reset Moo.rest Moo.prev].
    do 3 skip_rule.
    rewrite first_match_unclaimed by exact Hlc.
    do 5 skip_rule.
    reflexivity.
Qed.

Lemma C8_multi_character_operator_first_witness :
  Tokenizer.tokenize SpecFactory.tokenizer "<>" =
  Moo.Tokens
    [ {| Moo.type := OPERATOR; Moo.value := "<>"; Moo.text := "<>";
         Moo.offset := 0; Moo.tokenLineBreaks := 0; Moo.line := 1; Moo.col := 1 |} ]
  /\ Moo.next (Tokenizer.LEXER SpecFactory.tokenizer) (Moo.reset "<=1") =
     Moo.Emit
       {| Moo.type := OPERATOR; Moo.value := "<="; Moo.text := "<=";
          Moo.offset := 0; Moo.tokenLineBreaks := 0; Moo.line := 1; Moo.col := 1 |}
       {| Moo.prev := Some "="%char; Moo.rest := "1"; Moo.index := 2;
          Moo.curLine := 1; Moo.curCol := 3 |}
  /\ Moo.next (Tokenizer.LEXER SpecFactory.tokenizer) (Moo.reset "<1") =
     Moo.Emit
       {| Moo.type := OPERATOR; Moo.value := "<"; Moo.text := "<";
          Moo.offset := 0; Moo.tokenLineBreaks := 0; Moo.line := 1; Moo.col := 1 |}
       {| Moo.prev := Some "<"%char; Moo.rest := "1"; Moo.index := 1;
          Moo.curLine := 1; Moo.curCol := 2 |}.
Proof.
  destruct (@C8_multi_character_operator_first SpecFactory.factory SpecFactory.cfg
              SpecFactory.tokenizer)
    as (Hpolyad & Hmonad & Hsample).
  - reflexivity.
  - vm_compute. reflexivity.
  - split; [apply Hsample; vm_compute; reflexivity|]. split.
    + apply (Hpolyad (Moo.reset "<=1") "<=" "1"); vm_compute; reflexivity.
    + apply (Hmonad (Moo.reset "<1") "<"%char "1"); vm_compute; reflexivity.
Defined.

Lemma to_lower_inv (c l : ascii) :
  Regex.to_lower c = l -> c = l \/ c = Regex.to_upper l.
Proof.
  intros <-.
  destruct c as [[] [] [] [] [] [] [] []]; vm_compute; auto.
Qed.

(** A pattern anchored by [^] has no match where the rest of it has
    none. *)
Lemma unclaimed_after_bol (r : Regex.t) (fl : list ascii) prev s :
  Regex.misses r prev s = true ->
  Tokenizer.unclaimed (Some (mkRegExp (Regex.Seq Regex.Bol r) fl)) prev s = true.
Proof.
  unfold Tokenizer.unclaimed, Regex.misses, Regex.match_at. simpl.
  destruct prev as [c|]; [|done]. by destruct (Regex.line_terminator c).
Qed.

Ltac skip_anchored_rule :=
  rewrite first_match_unclaimed
    by (apply unclaimed_after_bol; vm_compute; reflexivity).

(** C10: the rules of CASE and END have no word-boundary check. Where the
    text left to the lexer starts with the letters of "case" or of "end",
    in any letter case, and neither the line-comment rule nor the operator
    rule claims it, the next token is the case-start or the case-end token
    of these letters alone, and tokenization goes on with whatever
    follows them, be it the rest of a word. ([tokenize tk input] is
    [Moo.from (LEXER tk) (Moo.reset input)].) *)
Theorem C10_case_and_end_within_words {F : MooRegexFactory}
        (cfg : TokenizerOptions) (tk : Tokenizer.t)
        (kind : TokenType) (pfx tail : string) (st : Moo.State) :
  Tokenizer.constructor cfg = inr tk ->
  (kind = CASE_START /\ Regex.lower pfx = "case")
  \/ (kind = CASE_END /\ Regex.lower pfx = "end") ->
  Moo.rest st = (pfx ++ tail)%string ->
  Tokenizer.unclaimed (Tokenizer.line_comment_match cfg)
                      (Moo.prev st) (Moo.rest st) = true ->
  Tokenizer.unclaimed (Tokenizer.operator_match cfg)
                      (Moo.prev st) (Moo.rest st) = true ->
  Moo.from (Tokenizer.LEXER tk) st =
  Moo.push
    {| Moo.type := kind; Moo.value := pfx; Moo.text := pfx;
       Moo.offset := Moo.index st; Moo.tokenLineBreaks := 0;
       Moo.line := Moo.curLine st; Moo.col := Moo.curCol st |}
    (Moo.from (Tokenizer.LEXER tk)
       {| Moo.prev := Regex.last (Moo.prev st) pfx; Moo.rest := tail;
          Moo.index := Moo.index st + String.length pfx;
          Moo.curLine := Moo.curLine st;
          Moo.curCol := Moo.curCol st + String.length pfx |}).
Proof.
  intros H Hkind Hrest Hlc Hop.
  pose proof (constructor_groups _ _ H) as Hgs.
  unfold Tokenizer.rule_options in Hgs. cbn [flat_map] in Hgs.
  rewrite Hrest in Hlc, Hop.
  destruct Hkind as [[-> Hp] | [-> Hp]].
  - destruct pfx as [|c1 [|c2 [|c3 [|c4 [|? ?]]]]]; try discriminate Hp.
    simpl in Hp. injection Hp as H1 H2 H3 H4.
    apply to_lower_inv in H1, H2, H3, H4.
    apply from_emit; [|discriminate].
    rewrite (next_first_match _ st CASE_START
               {| Moo.match_ := mkRegExp Tokenizer.case_start_pattern
                                  (Tokenizer.normalized_flags ["u"%char]);
                  Moo.lineBreaks := false |}
               (Some c4) (String c1 (String c2 (String c3 (String c4 ""))))
               tail Hrest ltac:(discriminate)).
    + simpl. by rewrite Nat.add_0_r.
    + rewrite Hgs.
      destruct H1 as [-> | ->], H2 as [-> | ->], H3 as [-> | ->], H4 as [-> | ->];
        cbn [String.append] in *;
        (do 2 skip_rule; skip_anchored_rule;
         rewrite first_match_unclaimed by exact Hlc;
         do 5 skip_rule;
         rewrite first_match_unclaimed by exact Hop;
         skip_anchored_rule;
         erewrite first_match_claimed; [|reflexivity|vm_compute; reflexivity];
         reflexivity).
  - destruct pfx as [|c1 [|c2 [|c3 [|? ?]]]]; try discriminate Hp.
    simpl in Hp. injection Hp as H1 H2 H3.
    apply to_lower_inv in H1, H2, H3.
    apply from_emit; [|discriminate].
    rewrite (next_first_match _ st CASE_END
               {| Moo.match_ := mkRegExp Tokenizer.case_end_pattern
                                  (Tokenizer.normalized_flags ["u"%char]);
                  Moo.lineBreaks := false |}
               (Some c3) (String c1 (String c2 (String c3 "")))
               tail Hrest ltac:(discriminate)).
    + simpl. by rewrite Nat.add_0_r.
    + rewrite Hgs.
      destruct H1 as [-> | ->], H2 as [-> | ->], H3 as [-> | ->];
        cbn [String.append] in *;
        (do 2 skip_rule; skip_anchored_rule;
         rewrite first_match_unclaimed by exact Hlc;
         do 5 skip_rule;
         rewrite first_match_unclaimed by exact Hop;
         skip_anchored_rule; skip_rule;
         erewrite first_match_claimed; [|reflexivity|vm_compute; reflexivity];
         reflexivity).
Qed.

Lemma C10_case_and_end_within_words_witness :
  Tokenizer.tokenize SpecFactory.tokenizer "ENDING" =
  Moo.Tokens
    [ {| Moo.type := CASE_END; Moo.value := "END"; Moo.text := "END";
         Moo.offset := 0; Moo.tokenLineBreaks := 0; Moo.line := 1; Moo.col := 1 |};
      {| Moo.type := WORD; Moo.value := "ING"; Moo.text := "ING";
         Moo.offset := 3; Moo.tokenLineBreaks := 0; Moo.line := 1; Moo.col := 4 |} ].
Proof.
  rewrite tokenize_from.
  rewrite (@C10_case_and_end_within_words SpecFactory.factory SpecFactory.cfg
             SpecFactory.tokenizer CASE_END "END" "ING" (Moo.reset "ENDING")).
  - vm_compute. reflexivity.
  - vm_compute. reflexivity.
  - right. split; reflexivity.
  - reflexivity.
  - vm_compute. reflexivity.
  - vm_compute. reflexivity.
Defined.


(** * The tokenizer of the sample configuration on small inputs *)

Section Samples.

Example sample_select :
  Moo.types_and_texts (Tokenizer.tokenize SpecFactory.tokenizer "SELECT a <= 'x'") =
  Some [(RESERVED_COMMAND, "SELECT"); (WS, " "); (WORD, "a"); (WS, " ");
        (OPERATOR, "<="); (WS, " "); (STRING, "'x'")].
Proof. vm_compute. reflexivity. Qed.

Example sample_whole_word :
  Moo.types_and_texts (Tokenizer.tokenize SpecFactory.tokenizer "SELECTOR") =
  Some [(WORD, "SELECTOR")].
Proof. vm_compute. reflexivity. Qed.

Example sample_number_at_line_start :
  Moo.types_and_texts (Tokenizer.tokenize SpecFactory.tokenizer "123.45e-6") =
  Some [(NUMBER, "123.45e-6")]
  /\ Moo.types_and_texts (Tokenizer.tokenize SpecFactory.tokenizer "0x1F") =
     Some [(NUMBER, "0x1F")].
Proof. split; vm_compute; reflexivity. Qed.

(** [^] is the start of a line: within a line neither the number rule nor
    the block-comment rule applies. *)
Example sample_number_within_line :
  Moo.types_and_texts (Tokenizer.tokenize SpecFactory.tokenizer "a 12") =
  Some [(WORD, "a"); (WS, " "); (WORD, "12")].
Proof. vm_compute. reflexivity. Qed.

Example sample_comment_within_line :
  Moo.types_and_texts (Tokenizer.tokenize SpecFactory.tokenizer "a /* c */") =
  Some [(WORD, "a"); (WS, " "); (OPERATOR, "/"); (OPERATOR, "*"); (WS, " ");
        (WORD, "c"); (WS, " "); (OPERATOR, "*"); (OPERATOR, "/")].
Proof. vm_compute. reflexivity. Qed.

Example sample_comment_over_lines :
  Moo.types_and_texts (Tokenizer.tokenize SpecFactory.tokenizer
           ("/* abc" ++ String "010" "def */")) =
  Some [(BLOCK_COMMENT, "/* abc"); (NL, String "010" ""); (WORD, "def");
        (WS, " "); (OPERATOR, "*"); (OPERATOR, "/")].
Proof. vm_compute. reflexivity. Qed.

Example sample_casement :
  Moo.types_and_texts (Tokenizer.tokenize SpecFactory.tokenizer "casement") =
  Some [(CASE_START, "case"); (WORD, "ment")].
Proof. vm_compute. reflexivity. Qed.
End Samples.

(** * Further properties of [Params] *)

Section ParamsPasses.
Import Params Pass.

Lemma to_uint_nonnil (i : nat) : Nat.to_uint i <> Decimal.Nil.
Proof.
  intros H. pose proof (DecimalNat.Unsigned.of_to i) as Hi. rewrite H in Hi.
  simpl in Hi. subst i. discriminate H.
Qed.

Lemma array_index_to_property_key (i : nat) :
  array_index (to_property_key i) = Some i.
Proof.
  unfold array_index, to_property_key.
  rewrite NilZero.usu by apply to_uint_nonnil.
  rewrite DecimalNat.Unsigned.of_to. by rewrite String.eqb_refl.
Qed.

Lemma to_property_key_nonempty (i : nat) : to_property_key i <> "".
Proof.
  intros H. pose proof (array_index_to_property_key i) as Hi.
  rewrite H in Hi. discriminate Hi.
Qed.

(** No member of [Object.prototype] is named by a number. *)
Lemma inherited_index (i : nat) :
  inherited object_prototype (to_property_key i) = JsUndefined.
Proof.
  unfold inherited.
  destruct (existsb _ object_prototype) eqn:E; [|done].
  apply existsb_exists in E as (name & Hin & Heq).
  apply String.eqb_eq in Heq. pose proof (array_index_to_property_key i) as Hi.
  rewrite Heq in Hi. unfold object_prototype in Hin. cbn [In] in Hin.
  repeat (destruct Hin as [<- | Hin]; [vm_compute in Hi; discriminate Hi|]).
  destruct Hin.
Qed.
End ParamsPasses.

(** X1: on an array source, a pass of calls without keys returns the
    elements of the array in order from the cursor on, [undefined] for
    every call past the end, and leaves the cursor advanced by the number
    of calls. *)
Theorem X1_positional_pass (values : list string) (phs : list Params.Placeholder)
        (i : nat) :
  forallb Pass.keyless phs = true ->
  Params.get_all (Params.mk (Some (Params.ParamArray values)) i) phs =
  (map (Pass.element values) (seq i (length phs)),
   Params.mk (Some (Params.ParamArray values)) (i + length phs)).
Proof.
  revert i. induction phs as [|ph phs IH]; intros i Hk; simpl.
  - by rewrite Nat.add_0_r.
  - simpl in Hk. apply andb_prop in Hk as [Hph Hk].
    unfold Pass.keyless in Hph. unfold Params.get. simpl.
    destruct (Params.truthy (Params.key ph)); [done|]. simpl.
    rewrite (IH (S i) Hk). do 2 f_equal. lia.
Qed.

Lemma X1_positional_pass_witness :
  Params.get_all (Params.mk (Some (Params.ParamArray ["a"; "b"; "c"])) 1)
    [Params.mkPlaceholder None "?"; Params.mkPlaceholder (Some "") "?";
     Params.mkPlaceholder None "?"]
  = ([JsString "b"; JsString "c"; JsUndefined],
     Params.mk (Some (Params.ParamArray ["a"; "b"; "c"])) 4).
Proof. apply (X1_positional_pass ["a"; "b"; "c"]). reflexivity. Defined.

(** X2: calls with a key take no position. In any pass, on any object, the
    values returned for the placeholders without a key, and the cursor at
    the end, are those of the pass over the placeholders without a key
    alone. *)
Theorem X2_keyed_calls_take_no_position (p : Params.t) (phs : list Params.Placeholder) :
  Pass.keyless_values (fst (Params.get_all p phs)) phs =
  fst (Params.get_all p (List.filter Pass.keyless phs))
  /\ snd (Params.get_all p phs) =
     snd (Params.get_all p (List.filter Pass.keyless phs)).
Proof.
  revert p. induction phs as [|ph phs IH]; intros p; simpl; [done|].
  destruct (Pass.keyless ph) eqn:Hk.
  - simpl. destruct (Params.get p ph) as [v p1].
    destruct (IH p1) as [IH1 IH2].
    destruct (Params.get_all p1 phs) as [vs p2].
    destruct (Params.get_all p1 (List.filter Pass.keyless phs)) as [vs' p2'].
    simpl in *. rewrite Hk. by subst.
  - assert (snd (Params.get p ph) = p) as Hp.
    { unfold Params.get, Pass.keyless in *. destruct (Params.params p); [|done].
      by destruct (Params.truthy (Params.key ph)). }
    destruct (Params.get p ph) as [v p1]. simpl in Hp. subst p1.
    destruct (IH p) as [IH1 IH2].
    destruct (Params.get_all p phs) as [vs p2]. simpl in *. by rewrite Hk.
Qed.

(** X3: on an array source, a call whose key is the decimal form of a
    number [i] returns the element at [i], [undefined] when [i] is past
    the end, wherever the cursor is, and does not move the cursor. *)
Theorem X3_numeric_key_reads_element (values : list string) (i j : nat) (txt : string) :
  Params.get (Params.mk (Some (Params.ParamArray values)) j)
             (Params.mkPlaceholder (Some (Params.to_property_key i)) txt)
  = (Pass.element values i, Params.mk (Some (Params.ParamArray values)) j).
Proof.
  unfold Params.get, Params.truthy. simpl.
  destruct (String.eqb_spec (Params.to_property_key i) "") as [H|_].
  - by apply to_property_key_nonempty in H.
  - simpl. by rewrite array_index_to_property_key.
Qed.

(** X4: a call without a key returns what a call keyed by the decimal
    form of the cursor returns, on an array and on a mapping alike; it
    differs only in moving the cursor. *)
Theorem X4_keyless_is_keyed_by_cursor (source : Params.ParamSource) (i : nat)
        (ph : Params.Placeholder) (txt : string) :
  Pass.keyless ph = true ->
  let p := Params.mk (Some source) i in
  Params.get p ph =
  (fst (Params.get p (Params.mkPlaceholder (Some (Params.to_property_key i)) txt)),
   Params.mk (Some source) (S i)).
Proof.
  intros Hk p. unfold Pass.keyless in Hk. unfold Params.get, Params.truthy at 2.
  simpl. destruct (Params.truthy (Params.key ph)); [done|].
  destruct (String.eqb_spec (Params.to_property_key i) "") as [H|_].
  { by apply to_property_key_nonempty in H. }
  destruct source as [items|values];
    cbn [fst Params.params Params.index Params.key Params.get_property
         Params.get_element].
  - by rewrite inherited_index.
  - by rewrite array_index_to_property_key.
Qed.

Lemma X4_keyless_is_keyed_by_cursor_witness :
  Params.get (Params.mk (Some (Params.ParamItems {[ "1" := "x" ]})) 1)
             (Params.mkPlaceholder None "?")
  = (JsString "x", Params.mk (Some (Params.ParamItems {[ "1" := "x" ]})) 2).
Proof.
  rewrite (X4_keyless_is_keyed_by_cursor (Params.ParamItems {[ "1" := "x" ]}) 1
             (Params.mkPlaceholder None "?") "?1" eq_refl).
  vm_compute. reflexivity.
Defined.

(** * Further properties of the lexer loop *)

Section DrainFacts.
Context {K : Type}.
Implicit Types (L : Moo.Lexer K) (st : Moo.State).

Lemma next_eof L st : Moo.next L st = Moo.Eof <-> Moo.rest st = "".
Proof.
  unfold Moo.next. destruct (Moo.rest st); [done|].
  split; [|done]. by destruct (Moo.first_match _ _ _) as [[[? ?] ?]|].
Qed.

Lemma next_throw L st e :
  Moo.next L st = Moo.Throw e <->
  Moo.rest st <> ""
  /\ Moo.first_match (Moo.groups L) (Moo.prev st) (Moo.rest st) = None
  /\ e = {| Moo.errorOffset := Moo.index st; Moo.errorLine := Moo.curLine st;
            Moo.errorCol := Moo.curCol st |}.
Proof.
  unfold Moo.next. destruct (Moo.rest st) eqn:E.
  { split; [done|]. by intros [? _]. }
  destruct (Moo.first_match _ _ _) as [[[? ?] ?]|].
  - split; [done|]. by intros (_ & ? & _).
  - split; [intros [= <-]; done|]. by intros (_ & _ & ->).
Qed.

Lemma drain_tokens_emits L (n : nat) : forall st toks,
  Moo.drain n L st = Moo.Tokens toks ->
  exists st', Moo.emits L st toks st' /\ Moo.rest st' = "".
Proof.
  induction n as [|n IH]; intros st toks; simpl; [done|].
  destruct (Moo.next L st) as [|tok st1|e] eqn:E; [| |done].
  - intros [= <-]. exists st. split; [constructor | by apply next_eof in E].
  - destruct (String.eqb_spec (Moo.text tok) ""); [done|].
    destruct (Moo.drain n L st1) as [toks1| |] eqn:D; simpl; [|done..].
    intros [= <-]. destruct (IH _ _ D) as (st' & He & Hr).
    exists st'. split; [by econstructor | done].
Qed.

Lemma drain_throws_emits L (n : nat) : forall st e,
  Moo.drain n L st = Moo.Throws e ->
  exists toks st', Moo.emits L st toks st' /\ Moo.next L st' = Moo.Throw e.
Proof.
  induction n as [|n IH]; intros st e; simpl; [done|].
  destruct (Moo.next L st) as [|tok st1|e1] eqn:E; [done| |].
  - destruct (String.eqb_spec (Moo.text tok) ""); [done|].
    destruct (Moo.drain n L st1) as [toks1|e2|] eqn:D; simpl; [done| |done].
    intros [= <-]. destruct (IH _ _ D) as (toks & st' & He & Hr).
    exists (tok :: toks), st'. split; [by econstructor | done].
  - intros [= <-]. exists [], st. split; [constructor | done].
Qed.

Lemma emits_texts L st toks st' :
  Moo.emits L st toks st' ->
  Moo.rest st = (Moo.texts toks ++ Moo.rest st')%string
  /\ Moo.index st' = Moo.index st + String.length (Moo.texts toks).
Proof.
  induction 1 as [st|st tok st1 toks st2 E Hne _ [IH1 IH2]].
  - split; [done | simpl; lia].
  - apply next_emit in E as (E1 & E2 & _).
    rewrite texts_cons, E1, IH1, IH2, E2, string_app_length.
    split; [by rewrite string_app_assoc | lia].
Qed.
End DrainFacts.

(** X5: [tokenize] returns an array of tokens exactly when the lexer emits
    these tokens one after the other, each of one character or more, and
    then stands at the end of the input. *)
Theorem X5_tokens_iff_emitted_to_the_end (tk : Tokenizer.t) (input : string)
        (toks : list (Moo.Token TokenType)) :
  Tokenizer.tokenize tk input = Moo.Tokens toks <->
  exists st, Moo.emits (Tokenizer.LEXER tk) (Moo.reset input) toks st
             /\ Moo.rest st = "".
Proof.
  split.
  - unfold Tokenizer.tokenize, Moo.from. apply drain_tokens_emits.
  - intros (st & He & Hr). unfold Tokenizer.tokenize.
    apply (emits_tokens _ _ _ _ He). by apply next_eof.
Qed.

(** X6: [tokenize] throws only where C2 says it does: when it throws, the
    lexer has emitted tokens whose joined texts are the input before the
    offset of the error, and no rule matches the text, not empty, that is
    left there. *)
Theorem X6_throw_only_at_unmatched_position (tk : Tokenizer.t) (input : string)
        (e : Moo.Error) :
  Tokenizer.tokenize tk input = Moo.Throws e ->
  exists toks st,
    Moo.emits (Tokenizer.LEXER tk) (Moo.reset input) toks st
    /\ input = (Moo.texts toks ++ Moo.rest st)%string
    /\ Moo.rest st <> ""
    /\ Moo.first_match (Moo.groups (Tokenizer.LEXER tk)) (Moo.prev st) (Moo.rest st) = None
    /\ Moo.errorOffset e = String.length (Moo.texts toks)
    /\ Moo.errorOffset e < String.length input.
Proof.
  unfold Tokenizer.tokenize, Moo.from. intros H.
  apply drain_throws_emits in H as (toks & st & He & Ht).
  apply next_throw in Ht as (Hne & Hm & ->).
  destruct (emits_texts _ _ _ _ He) as [H1 H2]. simpl in H1, H2.
  exists toks, st. repeat split; try done.
  simpl. rewrite H2, H1, string_app_length.
  destruct (Moo.rest st); [done | simpl; lia].
Qed.

Lemma X6_throw_only_at_unmatched_position_witness :
  exists toks st,
    Moo.emits (Tokenizer.LEXER SpecFactory.tokenizer) (Moo.reset "a !") toks st
    /\ "a !" = (Moo.texts toks ++ Moo.rest st)%string
    /\ Moo.rest st <> ""
    /\ Moo.first_match (Moo.groups (Tokenizer.LEXER SpecFactory.tokenizer))
         (Moo.prev st) (Moo.rest st) = None
    /\ 2 = String.length (Moo.texts toks)
    /\ 2 < 3.
Proof.
  apply (X6_throw_only_at_unmatched_position SpecFactory.tokenizer "a !"
           {| Moo.errorOffset := 2; Moo.errorLine := 1; Moo.errorCol := 3 |}).
  vm_compute. reflexivity.
Defined.

(** X7: the array that [tokenize] returns has no token of empty text, so
    it has at most as many tokens as the input has characters; for the
    empty input it is the empty array, for every tokenizer. *)
Theorem X7_tokens_are_not_empty (tk : Tokenizer.t) (input : string)
        (toks : list (Moo.Token TokenType)) :
  Tokenizer.tokenize tk "" = Moo.Tokens []
  /\ (Tokenizer.tokenize tk input = Moo.Tokens toks ->
      Forall (fun tok => Moo.text tok <> "") toks
      /\ length toks <= String.length input).
Proof.
  split; [reflexivity|]. intros H.
  unfold Tokenizer.tokenize, Moo.from in H.
  apply drain_tokens_emits in H as (st & He & _).
  assert (Forall (fun tok => Moo.text tok <> "") toks) as Hall.
  { clear -He. induction He; constructor; auto. }
  split; [done|].
  apply emits_texts in He as [He _]. simpl in He. subst input.
  rewrite string_app_length. clear -Hall.
  induction Hall as [|tok toks Hne _ IH]; simpl; [lia|].
  rewrite texts_cons, string_app_length.
  destruct (Moo.text tok); [done|]. simpl. lia.
Qed.

Lemma X7_tokens_are_not_empty_witness :
  Forall (fun tok : Moo.Token TokenType => Moo.text tok <> "")
    [ {| Moo.type := OPERATOR; Moo.value := "<>"; Moo.text := "<>";
         Moo.offset := 0; Moo.tokenLineBreaks := 0; Moo.line := 1; Moo.col := 1 |} ]
  /\ 1 <= 2.
Proof.
  apply (X7_tokens_are_not_empty SpecFactory.tokenizer "<>"). vm_compute. reflexivity.
Defined.

(** * Further properties of the constructor *)

Section ConstructorFacts.
Context {F : MooRegexFactory}.
Import Tokenizer.

Lemma existsb_filter (f : ascii) (P : ascii -> bool) (fl : list ascii) :
  P f = false -> existsb (Ascii.eqb f) (List.filter P fl) = false.
Proof.
  intros Hf. induction fl as [|c fl IH]; simpl; [done|].
  destruct (P c) eqn:Hc; [|done]. simpl. rewrite IH, orb_false_r.
  destruct (Ascii.eqb_spec f c); [congruence | done].
Qed.

Lemma normalized_flags_accepted (src : Regex.t) (fl : list ascii) :
  Table.accepted_flags (mkRegExp src (normalized_flags fl)) = true.
Proof.
  unfold Table.accepted_flags, has_flag, normalized_flags. simpl.
  rewrite !existsb_app, !existsb_filter by reflexivity. reflexivity.
Qed.

Lemma kept_accepted (opts : list (TokenType * RuleOption)) :
  Forall (fun kr => Table.accepted_flags (Moo.match_ (snd kr)) = true)
         (flat_map kept opts).
Proof.
  induction opts as [|[k opt] opts IH]; simpl; [constructor|].
  apply Forall_app. split; [|done]. unfold kept. simpl.
  destruct (optMatch opt); repeat constructor. apply normalized_flags_accepted.
Qed.

Lemma check_rule_accepted (u0 : option bool) (rule : Moo.Rule) :
  Table.accepted_flags (Moo.match_ rule) = true ->
  u0 = None \/ u0 = Some true ->
  match @Moo.check_rule u0 rule with
  | inl e => Table.flag_error e = false
  | inr u => u = Some true
  end.
Proof.
  unfold Table.accepted_flags, Moo.check_rule.
  intros [Hu Hn]%andb_prop Hu0. apply negb_true_iff in Hn.
  apply orb_false_elim in Hn as [Hn Hm].
  apply orb_false_elim in Hn as [Hn Hy].
  apply orb_false_elim in Hn as [Hi Hg].
  rewrite Hu, Hi, Hg, Hy, Hm.
  destruct Hu0 as [-> | ->]; simpl;
    destruct (Regex.test false _ ""); auto;
    destruct (Regex.has_group _); auto;
    destruct (negb (Moo.lineBreaks rule) && _); auto.
Qed.

Lemma compileRules_accepted {K} (rules : list (K * Moo.Rule)) : forall u0,
  Forall (fun kr => Table.accepted_flags (Moo.match_ (snd kr)) = true) rules ->
  u0 = None \/ u0 = Some true ->
  forall e, Moo.compileRules u0 rules = inl e -> Table.flag_error e = false.
Proof.
  induction rules as [|[k rule] rules IH]; intros u0 Hall Hu0 e; simpl; [done|].
  inversion Hall as [|? ? Hr Hrs]; subst. simpl in Hr.
  pose proof (check_rule_accepted u0 rule Hr Hu0) as Hc.
  destruct (Moo.check_rule u0 rule) as [e'|u]; [by intros [= <-]|].
  apply IH; auto.
Qed.

Lemma kept_keys (opts : list (TokenType * RuleOption)) :
  sublist (map fst (flat_map kept opts)) (map fst opts).
Proof.
  induction opts as [|[k opt] opts IH]; simpl; [constructor|].
  unfold kept at 1. simpl. destruct (optMatch opt); simpl.
  - by apply sublist_skip.
  - by apply sublist_cons.
Qed.
End ConstructorFacts.

(** X8: the constructor rebuilds every pattern with the flag [u] and
    without [i], [m], [g] and [y], whatever flags the pattern was written
    or built with; so, when the constructor fails in [moo.compile], it is
    never for a flag: neither for a flag that is not allowed or implied,
    nor for patterns that differ in [u]. *)
Theorem X8_constructor_errors {F : MooRegexFactory} (cfg : TokenizerOptions)
        (e : Moo.CompileError) :
  Tokenizer.constructor cfg = inl (Tokenizer.CompileFailed e) ->
  Table.flag_error e = false.
Proof.
  unfold Tokenizer.constructor, Moo.compile.
  destruct (existsb Tokenizer.rebuild_fails _); [discriminate|].
  rewrite normalize_kept.
  destruct (Moo.compileRules None _) as [e'|u] eqn:E; [|discriminate].
  intros H. injection H as <-.
  eapply compileRules_accepted; [apply kept_accepted| |exact E].
  by left.
Qed.

Lemma X8_constructor_errors_witness :
  Table.flag_error Moo.MatchesEmptyString = false.
Proof.
  apply (@X8_constructor_errors SpecFactory.factory Table.cfg_empty_prefix).
  vm_compute. reflexivity.
Defined.

Lemma kept_key_present (opts : list (TokenType * Tokenizer.RuleOption))
      (k : TokenType) (opt : Tokenizer.RuleOption) (re : RegExp) :
  In (k, opt) opts -> Tokenizer.optMatch opt = Some re ->
  In k (map fst (flat_map Tokenizer.kept opts)).
Proof.
  intros Hin Hre. apply in_map_iff.
  exists (k, {| Moo.match_ := mkRegExp (source re) (Tokenizer.normalized_flags (flags re));
               Moo.lineBreaks := Tokenizer.optLineBreaks opt |}).
  split; [done|]. apply in_flat_map. exists (k, opt). split; [done|].
  unfold Tokenizer.kept. simpl. rewrite Hre. by left.
Qed.

Lemma written_keys_NoDup : NoDup Table.written_keys.
Proof.
  apply NoDup_ListNoDup. unfold Table.written_keys.
  repeat (constructor;
          [intros Hin; simpl in Hin;
           repeat (destruct Hin as [Hin|Hin]; [discriminate Hin|]); exact Hin|]).
  constructor.
Qed.

Lemma kept_written_keys {F : MooRegexFactory} (cfg : TokenizerOptions) :
  sublist (map fst (flat_map Tokenizer.kept (Tokenizer.rule_options cfg)))
          Table.written_keys.
Proof. apply kept_keys. Qed.

Lemma kept_fixed_keys {F : MooRegexFactory} (cfg : TokenizerOptions) (k : TokenType) :
  In k Table.fixed_keys ->
  In k (map fst (flat_map Tokenizer.kept (Tokenizer.rule_options cfg))).
Proof.
  intros Hk. unfold Table.fixed_keys in Hk. simpl in Hk.
  repeat (destruct Hk as [<- | Hk];
          [eapply kept_key_present;
           [unfold Tokenizer.rule_options;
            repeat (first [left; reflexivity | right])
           |reflexivity]|]).
  destruct Hk.
Qed.

Lemma constructor_options {F : MooRegexFactory} (cfg : TokenizerOptions)
      (tk : Tokenizer.t) :
  Tokenizer.constructor cfg = inr tk ->
  Moo.groups (Tokenizer.LEXER tk) = Tokenizer.LEXER_OPTIONS tk.
Proof.
  unfold Tokenizer.constructor.
  destruct (existsb Tokenizer.rebuild_fails _); [discriminate|].
  destruct (Moo.compile _) as [e|L] eqn:E; [discriminate|].
  intros H. injection H as <-. cbn [Tokenizer.LEXER Tokenizer.LEXER_OPTIONS].
  exact (compile_groups _ _ E).
Qed.

(** An entry of the written table is its key with the match and the
    [lineBreaks] that the object literal gives the key. *)
Lemma rule_options_entry {F : MooRegexFactory} (cfg : TokenizerOptions)
      (k : TokenType) (opt : Tokenizer.RuleOption) :
  In (k, opt) (Tokenizer.rule_options cfg) <->
  opt = {| Tokenizer.optMatch := Table.match_of cfg k;
           Tokenizer.optLineBreaks := Table.declares_line_breaks k |}.
Proof.
  split.
  - unfold Tokenizer.rule_options. intros Hin.
    repeat (destruct Hin as [Hin|Hin]; [injection Hin as <- <-; reflexivity|]).
    destruct Hin.
  - intros ->. unfold Tokenizer.rule_options.
    destruct k; repeat (first [left; reflexivity | right]).
Qed.

Lemma kept_entry (opts : list (TokenType * Tokenizer.RuleOption))
      (k : TokenType) (mr : Moo.Rule) :
  In (k, mr) (flat_map Tokenizer.kept opts) <->
  exists opt re,
    In (k, opt) opts /\ Tokenizer.optMatch opt = Some re
    /\ mr = {| Moo.match_ :=
                mkRegExp (source re) (Tokenizer.normalized_flags (flags re));
              Moo.lineBreaks := Tokenizer.optLineBreaks opt |}.
Proof.
  rewrite in_flat_map. split.
  - intros ([k' opt] & Hin & Hk). unfold Tokenizer.kept in Hk. cbn [fst snd] in Hk.
    destruct (Tokenizer.optMatch opt) as [re|] eqn:E; [|destruct Hk].
    destruct Hk as [Hk|[]]. injection Hk as -> <-. by exists opt, re.
  - intros (opt & re & Hin & E & ->). exists (k, opt). split; [done|].
    unfold Tokenizer.kept. cbn [fst snd]. rewrite E. by left.
Qed.

Lemma kept_rule_options {F : MooRegexFactory} (cfg : TokenizerOptions)
      (k : TokenType) (mr : Moo.Rule) :
  In (k, mr) (flat_map Tokenizer.kept (Tokenizer.rule_options cfg)) <->
  exists re, Table.match_of cfg k = Some re /\ mr = Table.rebuilt k re.
Proof.
  rewrite kept_entry. split.
  - intros (opt & re & Hin & E & ->). apply rule_options_entry in Hin as ->.
    cbn [Tokenizer.optMatch Tokenizer.optLineBreaks] in *. by exists re.
  - intros (re & E & ->).
    exists {| Tokenizer.optMatch := Table.match_of cfg k;
              Tokenizer.optLineBreaks := Table.declares_line_breaks k |}, re.
    split; [by apply rule_options_entry|]. by split.
Qed.

(** X9: the table of a tokenizer is the one its lexer is compiled from;
    its keys are keys of the written table, in the written order and
    without repetition; a key has a rule in it exactly when the match that
    the constructor writes for the key is a pattern, so that a rule is left
    out only when its builder returns none, and the rule is then that
    pattern rebuilt, with the [lineBreaks] written for the key; the twelve
    rules whose pattern does not depend on a builder that may return none
    are always in it. *)
Theorem X9_table_keys {F : MooRegexFactory} (cfg : TokenizerOptions)
        (tk : Tokenizer.t) :
  Tokenizer.constructor cfg = inr tk ->
  Moo.groups (Tokenizer.LEXER tk) = Tokenizer.LEXER_OPTIONS tk
  /\ sublist (map fst (Tokenizer.LEXER_OPTIONS tk)) Table.written_keys
  /\ NoDup (map fst (Tokenizer.LEXER_OPTIONS tk))
  /\ (forall k mr,
        In (k, mr) (Tokenizer.LEXER_OPTIONS tk) <->
        exists re, Table.match_of cfg k = Some re /\ mr = Table.rebuilt k re)
  /\ (forall k, In k Table.fixed_keys -> In k (map fst (Tokenizer.LEXER_OPTIONS tk))).
Proof.
  intros H. pose proof (constructor_groups _ _ H) as Hgs.
  pose proof (constructor_options _ _ H) as Heq.
  rewrite <- Heq, Hgs.
  split; [reflexivity|]. split; [apply kept_written_keys|]. split; [|split].
  - exact (sublist_NoDup _ _ written_keys_NoDup (kept_written_keys cfg)).
  - apply kept_rule_options.
  - apply kept_fixed_keys.
Qed.

Lemma X9_table_keys_witness :
  Moo.groups (Tokenizer.LEXER SpecFactory.tokenizer) =
  Tokenizer.LEXER_OPTIONS SpecFactory.tokenizer
  /\ sublist (map fst (Tokenizer.LEXER_OPTIONS SpecFactory.tokenizer)) Table.written_keys
  /\ NoDup (map fst (Tokenizer.LEXER_OPTIONS SpecFactory.tokenizer))
  /\ (forall k mr,
        In (k, mr) (Tokenizer.LEXER_OPTIONS SpecFactory.tokenizer) <->
        exists re, @Table.match_of SpecFactory.factory SpecFactory.cfg k = Some re
                   /\ mr = Table.rebuilt k re)
  /\ (forall k, In k Table.fixed_keys ->
                In k (map fst (Tokenizer.LEXER_OPTIONS SpecFactory.tokenizer))).
Proof.
  apply (@X9_table_keys SpecFactory.factory SpecFactory.cfg). vm_compute. reflexivity.
Defined.

(** * The rules behind the tokens *)

Section RuleFacts.
Context {F : MooRegexFactory}.
Import Tokenizer.

Lemma first_match_In {K} (gs : list (K * Moo.Rule)) prev s k rule m :
  Moo.first_match gs prev s = Some (k, rule, m) ->
  In (k, rule) gs /\ Regex.match_at true (source (Moo.match_ rule)) prev s = Some m.
Proof.
  induction gs as [|[k0 rule0] gs IH]; cbn [Moo.first_match]; [done|].
  destruct (Regex.match_at true (source (Moo.match_ rule0)) prev s) as [m0|] eqn:E.
  - intros H. injection H as <- <- <-. cbn [In]. auto.
  - intros H. destruct (IH H). cbn [In]. auto.
Qed.

(** Every rule of the table has the [lineBreaks] and, for a written
    pattern, the source of its key. *)
Lemma kept_rule_written (cfg : TokenizerOptions) (k : TokenType) (mr : Moo.Rule) :
  In (k, mr) (flat_map kept (rule_options cfg)) ->
  Moo.lineBreaks mr = Table.declares_line_breaks k
  /\ forall r, Table.written_source k = Some r -> source (Moo.match_ mr) = r.
Proof.
  intros H. unfold rule_options in H. cbn [flat_map] in H.
  repeat (apply in_app_or in H; destruct H as [H|H]);
    try (unfold kept in H;
         cbn [fst snd optMatch optLineBreaks rule rule_lb built] in H;
         repeat match type of H with
                | context [match ?x with _ => _ end] => destruct x
                end;
         cbn [In] in H;
         lazymatch type of H with
         | False => destruct H
         | _ =>
             destruct H as [H|H]; [|destruct H];
             injection H as <- <-;
             split; [reflexivity | intros pat Hr; simpl in Hr; try discriminate Hr;
                                   injection Hr as <-; reflexivity]
         end).
Qed.

Lemma next_emit_rule (tk : Tokenizer.t) (cfg : TokenizerOptions) st tok st' :
  constructor cfg = inr tk ->
  Moo.next (LEXER tk) st = Moo.Emit tok st' ->
  exists rule,
    In (Moo.type tok, rule) (flat_map kept (rule_options cfg))
    /\ Regex.match_at true (source (Moo.match_ rule)) (Moo.prev st) (Moo.rest st)
       = Some (Moo.prev st', Moo.rest st')
    /\ Moo.tokenLineBreaks tok =
       (if Moo.lineBreaks rule then Moo.count_newlines (Moo.text tok) else 0)
    /\ Moo.line tok = Moo.curLine st /\ Moo.col tok = Moo.curCol st
    /\ Moo.curLine st' = Moo.curLine st + Moo.tokenLineBreaks tok
    /\ Moo.curCol st' =
       (if (Moo.tokenLineBreaks tok =? 0)%nat
        then Moo.curCol st + String.length (Moo.text tok)
        else Moo.after_last_newline (Moo.text tok) + 1).
Proof.
  intros H. unfold Moo.next. rewrite (constructor_groups _ _ H).
  destruct (Moo.rest st) as [|c s] eqn:Hs; [done|].
  destruct (Moo.first_match _ _ _) as [[[k rule] [p' s']]|] eqn:E; [|done].
  apply first_match_In in E as [Hin Hm]. simpl. intros [= <- <-]. simpl.
  exists rule. repeat split; done.
Qed.
End RuleFacts.

Section MatchFacts.
Import Regex Tokenizer.

Lemma consumed_unique (s t1 t2 s' : string) :
  s = (t1 ++ s')%string -> s = (t2 ++ s')%string -> t1 = t2.
Proof.
  intros H1 H2. rewrite <- (consumed_app t1 s'), <- (consumed_app t2 s').
  by rewrite <- H1, <- H2.
Qed.

Lemma newline_match prev s p' s' :
  match_at true (char "010") prev s = Some (p', s') -> s = String "010" s'.
Proof.
  unfold match_at. cbn [exec char]. destruct s as [|c s]; [done|].
  unfold in_set. cbn [existsb xorb]. rewrite orb_false_r, in_range_single.
  destruct (Ascii.eqb_spec c "010") as [->|]; [|done]. by intros [= _ ->].
Qed.

Lemma block_comment_end_match p s p' s' :
  exec true block_comment_end _ p s (fun q r => Some (q, r)) = Some (p', s') ->
  exists t, s = (t ++ s')%string /\ one_line t = true.
Proof.
  unfold block_comment_end. cbn [exec]. intros [H | [_ H]]%orelse_Some.
  - exists "*/". split; [|reflexivity].
    cbn [lit exec char] in H. destruct s as [|c1 [|c2 s]]; try done.
    + by destruct (in_set false [("*"%char, "*"%char)] c1).
    + unfold in_set in H. cbn [existsb xorb] in H.
      rewrite !orb_false_r, !in_range_single in H.
      destruct (Ascii.eqb_spec c1 "*") as [->|]; [|done].
      destruct (Ascii.eqb_spec c2 "/") as [->|]; [|done].
      by injection H as _ ->.
  - exists "". split; [|reflexivity]. destruct s as [|c s].
    + by injection H as _ <-.
    + destruct (true && line_terminator c); [|done]. by injection H as _ <-.
Qed.

Lemma block_comment_end_none p c s :
  exec true block_comment_end _ p (String c s) (fun q r => Some (q, r)) = None ->
  line_terminator c = false.
Proof.
  unfold block_comment_end. cbn [exec].
  destruct (exec true (lit "*/") _ p (String c s) _); [done|]. cbn [orelse].
  by destruct (line_terminator c).
Qed.

Lemma lazy_any_one_line (n : nat) : forall prev s p' s',
  repeat (exec true any_char) false _
         (fun p r => exec true block_comment_end _ p r (fun q r' => Some (q, r')))
         n prev s = Some (p', s') ->
  exists t, s = (t ++ s')%string /\ one_line t = true.
Proof.
  induction n as [|n IH]; intros prev s p' s'; cbn [repeat].
  - apply block_comment_end_match.
  - intros [H | [Hnone H]]%orelse_Some; [by apply block_comment_end_match in H|].
    cbn [exec any_char] in H. destruct s as [|c s]; [done|].
    unfold in_set in H. cbn [existsb xorb] in H.
    destruct (String.length s <? String.length (String c s))%nat; [|done].
    apply IH in H as (t & -> & Ht). apply block_comment_end_none in Hnone.
    exists (String c t). split; [done|]. simpl. by rewrite Hnone, Ht.
Qed.

(** A match of the block-comment pattern starts at the start of a line
    and holds no line terminator. *)
Lemma block_comment_match prev s p' s' :
  match_at true block_comment_pattern prev s = Some (p', s') ->
  Table.line_start prev = true
  /\ exists t, s = (t ++ s')%string /\ one_line t = true.
Proof.
  unfold match_at, block_comment_pattern. cbn [seq exec lit char]. intros H.
  assert (Table.line_start prev = true) as Hp.
  { destruct prev as [c|]; [|done]. simpl. by destruct (line_terminator c). }
  split; [done|].
  assert (exec true (Seq (char "/") (Seq (char "*") Eps)) _ prev s
            (fun prev' r => exec true (Star false any_char) _ prev' r
               (fun p r' => exec true block_comment_end _ p r'
                  (fun q r'' => Some (q, r'')))) = Some (p', s')) as H'.
  { destruct prev as [c|]; [|exact H].
    destruct (true && line_terminator c); [exact H | done]. }
  clear H. cbn [exec char] in H'. destruct s as [|c1 [|c2 s]]; try done.
  { by destruct (in_set false [("/"%char, "/"%char)] c1). }
  unfold in_set in H'. cbn [existsb xorb] in H'.
  rewrite !orb_false_r, !in_range_single in H'.
  destruct (Ascii.eqb_spec c1 "/") as [->|]; [|done].
  destruct (Ascii.eqb_spec c2 "*") as [->|]; [|done].
  apply lazy_any_one_line in H' as (t & -> & Ht).
  exists (String "/" (String "*" t)). split; [done|]. simpl. exact Ht.
Qed.

(** A match of a pattern between [^] and [\b] starts at the start of a
    line and ends at a word boundary. *)
Lemma anchored_bounded_match (r : Regex.t) prev s p' s' :
  match_at true (seq [Bol; r; WordBoundary]) prev s = Some (p', s') ->
  Table.line_start prev = true
  /\ xorb (holds word_char p') (holds word_char (head s')) = true.
Proof.
  unfold match_at. cbn [seq exec]. intros H.
  assert (Table.line_start prev = true) as Hp.
  { destruct prev as [c|]; [|done]. simpl. by destruct (line_terminator c). }
  split; [done|].
  assert (exec true r _ prev s
            (fun prev' r' =>
               if xorb (holds word_char prev') (holds word_char (head r'))
               then Some (prev', r') else None) = Some (p', s')) as H'.
  { destruct prev as [c|]; [|exact H].
    destruct (true && line_terminator c); [exact H | done]. }
  apply exec_suffix in H' as (q & t & r' & _ & Hk).
  destruct (xorb (holds word_char q) (holds word_char (head r'))) eqn:E; [|done].
  by injection Hk as <- <-.
Qed.

(** When the pattern between [^] and [\b] ends every match after a
    character of [\w], a match ends in such a character, and the
    character after it is none. *)
Lemma anchored_word_match (r : Regex.t) prev s p' s' :
  fst (word_end r) = true ->
  match_at true (seq [Bol; r; WordBoundary]) prev s = Some (p', s') ->
  exists t, s = (t ++ s')%string
    /\ holds word_char (last None t) = true
    /\ holds word_char (head s') = false.
Proof.
  unfold match_at. cbn [seq exec]. intros Hw H.
  assert (exec true r _ prev s
            (fun prev' r' =>
               if xorb (holds word_char prev') (holds word_char (head r'))
               then Some (prev', r') else None) = Some (p', s')) as H'.
  { destruct prev as [c|]; [|exact H].
    destruct (true && line_terminator c); [exact H | done]. }
  apply exec_ends in H' as (t & r' & -> & Hk & He & _). specialize (He Hw).
  rewrite (last_word _ prev He), He in Hk.
  destruct (holds word_char (head r')) eqn:E; [done|].
  cbn [xorb] in Hk. injection Hk as _ <-. by exists t.
Qed.
End MatchFacts.

Section PositionFacts.
Context {F : MooRegexFactory}.
Import Tokenizer.

(** The text of an emitted token is what its rule has matched. *)
Lemma next_emit_text (tk : Tokenizer.t) (cfg : TokenizerOptions) st tok st' t :
  Moo.next (LEXER tk) st = Moo.Emit tok st' ->
  Moo.rest st = (t ++ Moo.rest st')%string ->
  Moo.text tok = t.
Proof.
  intros (H & _)%next_emit Ht. symmetry. by eapply consumed_unique.
Qed.

(** The line breaks that a token counts: one for [NL], none for any other
    token, whatever its text. *)
Lemma next_emit_line_breaks (tk : Tokenizer.t) (cfg : TokenizerOptions) st tok st' :
  constructor cfg = inr tk ->
  Moo.next (LEXER tk) st = Moo.Emit tok st' ->
  if Table.is_NL (Moo.type tok)
  then Moo.text tok = String "010" "" /\ Moo.tokenLineBreaks tok = 1
  else Moo.tokenLineBreaks tok = 0.
Proof.
  intros H E.
  destruct (next_emit_rule _ _ _ _ _ H E) as (mr & Hin & Hm & Hlb & _).
  apply kept_rule_written in Hin as [Hdecl Hsrc]. rewrite Hlb, Hdecl.
  destruct (Moo.type tok) eqn:Hk; simpl; try reflexivity.
  - rewrite (Hsrc _ eq_refl) in Hm. apply newline_match in Hm.
    rewrite (next_emit_text tk cfg _ _ _ (String "010" "") E Hm). by split.
  - rewrite (Hsrc _ eq_refl) in Hm.
    apply block_comment_match in Hm as (_ & t & Ht & Hone).
    rewrite (next_emit_text tk cfg _ _ _ t E Ht).
    by apply one_line_count_newlines.
Qed.

Lemma drain_positioned (tk : Tokenizer.t) (cfg : TokenizerOptions) (n : nat) :
  constructor cfg = inr tk ->
  forall st toks,
    Moo.drain n (LEXER tk) st = Moo.Tokens toks ->
    Table.positioned (Moo.index st) (Moo.curLine st) (Moo.curCol st) toks = true.
Proof.
  intros H. induction n as [|n IH]; intros st toks; simpl; [done|].
  destruct (Moo.next (LEXER tk) st) as [|tok st1|e] eqn:E; [| |done].
  { by intros [= <-]. }
  destruct (String.eqb (Moo.text tok) ""); [done|].
  destruct (Moo.drain n (LEXER tk) st1) as [toks1| |] eqn:D; simpl; [|done..].
  intros [= <-]. apply IH in D.
  pose proof (next_emit_line_breaks _ _ _ _ _ H E) as Hlb.
  destruct (next_emit_rule _ _ _ _ _ H E) as (_ & _ & _ & _ & Hl & Hc & Hl' & Hc').
  destruct (next_emit _ _ _ _ E) as (_ & Hi' & Ho).
  cbn [Table.positioned]. rewrite Ho, Hl, Hc, !Nat.eqb_refl. cbn [andb].
  rewrite Hi', Hl', Hc' in D.
  destruct (Table.is_NL (Moo.type tok)).
  - destruct Hlb as [Ht Hn]. rewrite Hn, Ht in D. rewrite Ht. exact D.
  - rewrite Hlb in D. cbn [Nat.eqb] in D. by rewrite Nat.add_0_r in D.
Qed.
End PositionFacts.

(** X10: in the array that [tokenize] returns, the offset of a token is
    the length of the texts before it, its line is one more than the
    number of [NL] tokens before it, and its column is one more than the
    length of the texts since the last [NL] token: a line feed inside any
    other token, a string or a comment line, is not counted as a line. *)
Theorem X10_positions {F : MooRegexFactory} (cfg : TokenizerOptions)
        (tk : Tokenizer.t) (input : string) (toks : list (Moo.Token TokenType)) :
  Tokenizer.constructor cfg = inr tk ->
  Tokenizer.tokenize tk input = Moo.Tokens toks ->
  Table.positioned 0 1 1 toks = true.
Proof.
  intros H Ht. unfold Tokenizer.tokenize, Moo.from in Ht.
  exact (drain_positioned tk cfg _ H _ _ Ht).
Qed.

Lemma X10_positions_witness :
  exists toks,
    Tokenizer.tokenize SpecFactory.tokenizer
      ("a" ++ String "010" ("'x" ++ String "010" "y' b")) = Moo.Tokens toks
    /\ map (fun tok => (Moo.text tok, Moo.line tok, Moo.col tok)) toks =
       [("a", 1, 1); (String "010" "", 1, 2);
        ("'x" ++ String "010" "y'", 2, 1); (" ", 2, 6); ("b", 2, 7)]
    /\ Table.positioned 0 1 1 toks = true.
Proof.
  eexists. split; [vm_compute; reflexivity|]. split; [vm_compute; reflexivity|].
  apply (@X10_positions SpecFactory.factory SpecFactory.cfg SpecFactory.tokenizer
           ("a" ++ String "010" ("'x" ++ String "010" "y' b"))).
  - vm_compute. reflexivity.
  - vm_compute. reflexivity.
Defined.

(** X11: a token of type BLOCK_COMMENT starts at the start of the buffer or
    of a line, holds no line terminator and counts no line break, although
    its rule declares [lineBreaks]: a block comment within a line, or the
    part of one after its first line, is never a BLOCK_COMMENT token. *)
Theorem X11_block_comment_tokens {F : MooRegexFactory} (cfg : TokenizerOptions)
        (tk : Tokenizer.t) (st st' : Moo.State) (tok : Moo.Token TokenType) :
  Tokenizer.constructor cfg = inr tk ->
  Moo.next (Tokenizer.LEXER tk) st = Moo.Emit tok st' ->
  Moo.type tok = BLOCK_COMMENT ->
  Table.line_start (Moo.prev st) = true
  /\ Tokenizer.one_line (Moo.text tok) = true
  /\ Moo.tokenLineBreaks tok = 0.
Proof.
  intros H E Hk.
  destruct (next_emit_rule _ _ _ _ _ H E) as (mr & Hin & Hm & _).
  apply kept_rule_written in Hin as [_ Hsrc]. rewrite Hk in Hsrc.
  rewrite (Hsrc _ eq_refl) in Hm.
  apply block_comment_match in Hm as (Hp & t & Ht & Hone).
  rewrite (next_emit_text tk cfg _ _ _ t E Ht).
  pose proof (next_emit_line_breaks _ _ _ _ _ H E) as Hlb. rewrite Hk in Hlb.
  done.
Qed.

Lemma X11_block_comment_tokens_witness :
  Table.line_start None = true
  /\ Tokenizer.one_line "/* abc" = true
  /\ 0 = 0.
Proof.
  apply (@X11_block_comment_tokens SpecFactory.factory SpecFactory.cfg
           SpecFactory.tokenizer
           (Moo.reset ("/* abc" ++ String "010" "def"))
           {| Moo.prev := Some "c"%char; Moo.rest := String "010" "def";
              Moo.index := 6; Moo.curLine := 1; Moo.curCol := 7 |}
           {| Moo.type := BLOCK_COMMENT; Moo.value := "/* abc"; Moo.text := "/* abc";
              Moo.offset := 0; Moo.tokenLineBreaks := 0; Moo.line := 1;
              Moo.col := 1 |}).
  - vm_compute. reflexivity.
  - vm_compute. reflexivity.
  - reflexivity.
Defined.

(** X12: a token of type NUMBER starts at the start of the buffer or of a
    line, its text ends in a letter, a digit or an underscore, and the
    character after it, if there is one, is none of these: a number within
    a line is never a NUMBER token, and a NUMBER token is never directly
    followed by a letter, a digit or an underscore. *)
Theorem X12_number_tokens {F : MooRegexFactory} (cfg : TokenizerOptions)
        (tk : Tokenizer.t) (st st' : Moo.State) (tok : Moo.Token TokenType) :
  Tokenizer.constructor cfg = inr tk ->
  Moo.next (Tokenizer.LEXER tk) st = Moo.Emit tok st' ->
  Moo.type tok = NUMBER ->
  Table.line_start (Moo.prev st) = true
  /\ Regex.holds Regex.word_char (Regex.last None (Moo.text tok)) = true
  /\ Regex.holds Regex.word_char (Regex.head (Moo.rest st')) = false
  /\ xorb (Regex.holds Regex.word_char (Moo.prev st'))
          (Regex.holds Regex.word_char (Regex.head (Moo.rest st'))) = true.
Proof.
  intros H E Hk.
  destruct (next_emit_rule _ _ _ _ _ H E) as (mr & Hin & Hm & _).
  apply kept_rule_written in Hin as [_ Hsrc]. rewrite Hk in Hsrc.
  rewrite (Hsrc _ eq_refl) in Hm. unfold Tokenizer.number_pattern in Hm.
  pose proof (anchored_bounded_match _ _ _ _ _ Hm) as [Hp Hx].
  apply anchored_word_match in Hm as (t & Ht & Hw & Hn); [|vm_compute; reflexivity].
  rewrite (next_emit_text tk cfg _ _ _ t E Ht). done.
Qed.

Lemma X12_number_tokens_witness :
  Table.line_start None = true
  /\ Regex.holds Regex.word_char (Regex.last None "12") = true
  /\ Regex.holds Regex.word_char (Regex.head " a") = false
  /\ xorb (Regex.holds Regex.word_char (Some "2"%char))
          (Regex.holds Regex.word_char (Regex.head " a")) = true.
Proof.
  apply (@X12_number_tokens SpecFactory.factory SpecFactory.cfg
           SpecFactory.tokenizer
           (Moo.reset "12 a")
           {| Moo.prev := Some "2"%char; Moo.rest := " a";
              Moo.index := 2; Moo.curLine := 1; Moo.curCol := 3 |}
           {| Moo.type := NUMBER; Moo.value := "12"; Moo.text := "12";
              Moo.offset := 0; Moo.tokenLineBreaks := 0; Moo.line := 1;
              Moo.col := 1 |}).
  - vm_compute. reflexivity.
  - vm_compute. reflexivity.
  - reflexivity.
Defined.

Section BlankFacts.
Import Regex.

Lemma in_set_blank (c : ascii) :
  in_set false [(" ", " "); ("009", "009")]%char c = Table.blank c.
Proof.
  unfold in_set, Table.blank. cbn [existsb xorb].
  by rewrite orb_false_r, !in_range_single.
Qed.

(** The greedy loop [[ \t]*] takes a run of blanks whole. *)
Lemma greedy_blank_run (tail : string) :
  holds Table.blank (head tail) = false ->
  forall (ws : string) (n : nat) (prev : option ascii),
    String.length (ws ++ tail) < n ->
    Table.all_blank ws = true ->
    repeat (exec true (CharSet false [(" ", " "); ("009", "009")]%char)) true _
           (fun p r => Some (p, r)) n prev (ws ++ tail) = Some (last prev ws, tail).
Proof.
  intros Ht. induction ws as [|c w IH]; intros n prev Hn Hw;
    (destruct n as [|n]; [lia|]); cbn [repeat String.append last exec].
  - destruct tail as [|d tail]; [done|]. rewrite in_set_blank.
    simpl in Ht. by rewrite Ht.
  - simpl in Hw. apply andb_prop in Hw as [Hc Hw]. rewrite in_set_blank, Hc.
    assert ((String.length (w ++ tail) <? String.length (String c (w ++ tail)))%nat = true)
      as -> by (apply Nat.ltb_lt; simpl; lia).
    rewrite IH; [done | simpl in Hn; lia | done].
Qed.

Lemma blank_run_match (ws tail : string) (prev : option ascii) :
  ws <> "" -> Table.all_blank ws = true ->
  holds Table.blank (head tail) = false ->
  match_at true (plus true (CharSet false [(" ", " "); ("009", "009")]%char))
           prev (ws ++ tail) = Some (last prev ws, tail).
Proof.
  intros Hne Hw Ht. destruct ws as [|c w]; [done|].
  unfold match_at, plus. cbn [exec String.append last].
  simpl in Hw. apply andb_prop in Hw as [Hc Hw]. rewrite in_set_blank, Hc.
  apply greedy_blank_run; [done | lia | done].
Qed.
End BlankFacts.

(** X13: a run of spaces and tabs, as long as it goes, is one token of
    type WS, for every tokenizer and wherever the lexer stands. *)
Theorem X13_blank_run_is_one_token {F : MooRegexFactory} (cfg : TokenizerOptions)
        (tk : Tokenizer.t) (st : Moo.State) (ws tail : string) :
  Tokenizer.constructor cfg = inr tk ->
  Moo.rest st = (ws ++ tail)%string ->
  ws <> "" ->
  Table.all_blank ws = true ->
  Regex.holds Table.blank (Regex.head tail) = false ->
  Moo.next (Tokenizer.LEXER tk) st =
  Moo.Emit
    {| Moo.type := WS; Moo.value := ws; Moo.text := ws; Moo.offset := Moo.index st;
       Moo.tokenLineBreaks := 0; Moo.line := Moo.curLine st; Moo.col := Moo.curCol st |}
    {| Moo.prev := Regex.last (Moo.prev st) ws; Moo.rest := tail;
       Moo.index := Moo.index st + String.length ws;
       Moo.curLine := Moo.curLine st;
       Moo.curCol := Moo.curCol st + String.length ws |}.
Proof.
  intros H Hrest Hne Hw Ht. apply constructor_groups_head in H as [gs Hgs].
  rewrite (next_first_match _ st WS
             {| Moo.match_ :=
                  mkRegExp
                    (Regex.plus true
                       (Regex.CharSet false [(" ", " "); ("009", "009")]%char))
                    (Tokenizer.normalized_flags []);
                Moo.lineBreaks := false |}
             (Regex.last (Moo.prev st) ws) ws tail Hrest Hne).
  - simpl. by rewrite Nat.add_0_r.
  - rewrite Hgs.
    erewrite first_match_claimed;
      [|reflexivity|by apply blank_run_match]. reflexivity.
Qed.

Lemma X13_blank_run_is_one_token_witness :
  Moo.next (Tokenizer.LEXER SpecFactory.tokenizer)
           (Moo.reset (String " " (String "009" " a"))) =
  Moo.Emit
    {| Moo.type := WS; Moo.value := String " " (String "009" " ");
       Moo.text := String " " (String "009" " "); Moo.offset := 0;
       Moo.tokenLineBreaks := 0; Moo.line := 1; Moo.col := 1 |}
    {| Moo.prev := Some " "%char; Moo.rest := "a"; Moo.index := 3;
       Moo.curLine := 1; Moo.curCol := 4 |}.
Proof.
  apply (@X13_blank_run_is_one_token SpecFactory.factory SpecFactory.cfg
           SpecFactory.tokenizer (Moo.reset (String " " (String "009" " a")))
           (String " " (String "009" " ")) "a").
  - vm_compute. reflexivity.
  - reflexivity.
  - discriminate.
  - reflexivity.
  - reflexivity.
Defined.

(** X14: where the lexer stands before a line feed, the next token is an
    NL token of that one character; it counts one line break, and the
    token after it is at column 1 of the next line. *)
Theorem X14_line_feed_is_a_token {F : MooRegexFactory} (cfg : TokenizerOptions)
        (tk : Tokenizer.t) (st : Moo.State) (tail : string) :
  Tokenizer.constructor cfg = inr tk ->
  Moo.rest st = String "010" tail ->
  Moo.next (Tokenizer.LEXER tk) st =
  Moo.Emit
    {| Moo.type := NL; Moo.value := String "010" ""; Moo.text := String "010" "";
       Moo.offset := Moo.index st; Moo.tokenLineBreaks := 1;
       Moo.line := Moo.curLine st; Moo.col := Moo.curCol st |}
    {| Moo.prev := Some "010"%char; Moo.rest := tail;
       Moo.index := Moo.index st + 1;
       Moo.curLine := Moo.curLine st + 1;
       Moo.curCol := 1 |}.
Proof.
  intros H Hrest. apply constructor_groups_head in H as [gs Hgs].
  rewrite (next_first_match _ st NL
             {| Moo.match_ := mkRegExp (Regex.char "010") (Tokenizer.normalized_flags []);
                Moo.lineBreaks := true |}
             (Some "010"%char) (String "010" "") tail Hrest ltac:(discriminate)).
  - reflexivity.
  - rewrite Hgs. cbn [String.append]. skip_rule.
    erewrite first_match_claimed; [|reflexivity|vm_compute; reflexivity].
    reflexivity.
Qed.

Lemma X14_line_feed_is_a_token_witness :
  Moo.next (Tokenizer.LEXER SpecFactory.tokenizer) (Moo.reset (String "010" "a")) =
  Moo.Emit
    {| Moo.type := NL; Moo.value := String "010" ""; Moo.text := String "010" "";
       Moo.offset := 0; Moo.tokenLineBreaks := 1; Moo.line := 1; Moo.col := 1 |}
    {| Moo.prev := Some "010"%char; Moo.rest := "a"; Moo.index := 1;
       Moo.curLine := 2; Moo.curCol := 1 |}.
Proof.
  apply (@X14_line_feed_is_a_token SpecFactory.factory SpecFactory.cfg
           SpecFactory.tokenizer (Moo.reset (String "010" "a")) "a").
  - vm_compute. reflexivity.
  - reflexivity.
Defined.

(** X15: a comma, a parenthesis or a square bracket that the line-comment
    rule does not claim is a token of its own type and of that one
    character, whatever follows it, wherever the lexer stands. *)
Theorem X15_punctuation_is_one_character {F : MooRegexFactory}
        (cfg : TokenizerOptions) (tk : Tokenizer.t) (st : Moo.State)
        (c : ascii) (k : TokenType) (tail : string) :
  Tokenizer.constructor cfg = inr tk ->
  In (c, k) Table.punctuation ->
  Moo.rest st = String c tail ->
  Tokenizer.unclaimed (Tokenizer.line_comment_match cfg)
                      (Moo.prev st) (Moo.rest st) = true ->
  Moo.next (Tokenizer.LEXER tk) st =
  Moo.Emit
    {| Moo.type := k; Moo.value := String c ""; Moo.text := String c "";
       Moo.offset := Moo.index st; Moo.tokenLineBreaks := 0;
       Moo.line := Moo.curLine st; Moo.col := Moo.curCol st |}
    {| Moo.prev := Some c; Moo.rest := tail;
       Moo.index := Moo.index st + 1;
       Moo.curLine := Moo.curLine st;
       Moo.curCol := Moo.curCol st + 1 |}.
Proof.
  intros H Hin Hrest Hlc.
  pose proof (constructor_groups _ _ H) as Hgs.
  unfold Tokenizer.rule_options in Hgs. cbn [flat_map] in Hgs.
  rewrite Hrest in Hlc.
  rewrite (next_first_match _ st k
             {| Moo.match_ := mkRegExp (Regex.char c) (Tokenizer.normalized_flags []);
                Moo.lineBreaks := false |}
             (Some c) (String c "") tail Hrest ltac:(discriminate)).
  - simpl. by rewrite Nat.add_0_r.
  - rewrite Hgs. cbn [String.append].
    unfold Table.punctuation in Hin. cbn [In] in Hin.
    repeat (destruct Hin as [Hin|Hin];
            [injection Hin as <- <-;
             do 2 skip_rule; skip_anchored_rule;
             rewrite first_match_unclaimed by exact Hlc;
             repeat skip_rule;
             erewrite first_match_claimed; [|reflexivity|vm_compute; reflexivity];
             reflexivity|]).
    destruct Hin.
Qed.

Lemma X15_punctuation_is_one_character_witness :
  Moo.next (Tokenizer.LEXER SpecFactory.tokenizer) (Moo.reset "(a)") =
  Moo.Emit
    {| Moo.type := OPEN_PAREN; Moo.value := "("; Moo.text := "(";
       Moo.offset := 0; Moo.tokenLineBreaks := 0; Moo.line := 1; Moo.col := 1 |}
    {| Moo.prev := Some "("%char; Moo.rest := "a)"; Moo.index := 1;
       Moo.curLine := 1; Moo.curCol := 2 |}.
Proof.
  apply (@X15_punctuation_is_one_character SpecFactory.factory SpecFactory.cfg
           SpecFactory.tokenizer (Moo.reset "(a)") "("%char OPEN_PAREN "a)").
  - vm_compute. reflexivity.
  - right. left. reflexivity.
  - reflexivity.
  - vm_compute. reflexivity.
Defined.
